(** * RelayProfiler: handler chains around instrumented functions, and
      named profiling sessions.

    Shallow embedding of [src/tools/RelayProfiler.js].

    The module state (the two registries, the enable flag, the closure
    state of every wrapper created by [instrument]) is one record,
    [World], threaded explicitly.  The two registries are JavaScript
    objects used as maps: the names ["__proto__"] and
    ["hasOwnProperty"] behave as they do on such an object.

    Client code (handlers, the wrapped functions, profile handlers) is
    the environment of the module: it is represented by small programs
    over a client state [U] that can act on that state, throw, call
    their continuation and call an instrumented function again, and
    catch the exception of either call.  As the source notes, handlers
    do not attach or detach handlers while another handler runs; client
    code cannot keep its continuation beyond the call that received
    it, and profile handlers do not call back into the module.

    The module state carries a ghost trace of the calls made into
    client code; nothing in the module reads it. *)

From stdpp Require Import gmap strings list fin_maps.

(** ** JavaScript values *)

Inductive Value : Type :=
| VUndefined
| VBool (b : bool)
| VNum (n : Z)
| VStr (s : string)
| VObj (o : nat)
| VError (msg : string).

(** The result slot of an invocation context.  [NOT_INVOKED] is the
    module-private object [{}] of the source: no client can obtain it,
    so it is a constructor of its own. *)
Inductive Slot : Type :=
| NOT_INVOKED
| Returned (v : Value).

(** How a call ends: normally, by an exception, or (model only) by
    exhausting the recursion budget. *)
Inductive Outcome (A : Type) : Type :=
| Ok (a : A)
| Thrown (e : Value)
| OutOfFuel.
Arguments Ok {A} a.
Arguments Thrown {A} e.
Arguments OutOfFuel {A}.

(** [undefined(...)] and [undefined[i]] raise a TypeError. *)
Definition typeError : Value := VError "TypeError".

Definition notInvokedError : Value :=
  VError "RelayProfiler: Handler did not invoke original function.".

(** ** Objects used as maps *)

(** An object created by [{}] whose properties are assigned and read by
    name: its own properties, and the value its prototype was replaced
    by, if it was ([None]: it still is [Object.prototype]). *)
Record JsMap (A : Type) : Type := mkJsMap {
  own : gmap string A;
  proto : option A
}.
Arguments mkJsMap {A} own proto.
Arguments own {A} _.
Arguments proto {A} _.

Definition emptyMap {A} : JsMap A := mkJsMap ∅ None.

(** [m.hasOwnProperty(name)].  The method is inherited from
    [Object.prototype] unless an own property of that name shadows it;
    the values stored are arrays, and calling an array raises a
    TypeError. *)
Definition hasOwnProperty {A} (m : JsMap A) (name : string) : Outcome bool :=
  match own m !! "hasOwnProperty" with
  | Some _ => Thrown typeError
  | None => Ok (bool_decide (is_Some (own m !! name)))
  end.

(** [m[name]]: the own property, or for ["__proto__"] (an accessor of
    [Object.prototype]) the prototype.  [None] stands for what is no
    array stored by the module ([undefined], or a property inherited
    from the built-in prototypes). *)
Definition getProperty {A} (m : JsMap A) (name : string) : option A :=
  match own m !! name with
  | Some a => Some a
  | None => if decide (name = "__proto__") then proto m else None
  end.

(** [m[name] = a] for an array [a]: an own property is created or
    updated, except that the setter of ["__proto__"] replaces the
    prototype and creates no property. *)
Definition setProperty {A} (m : JsMap A) (name : string) (a : A) : JsMap A :=
  match own m !! name with
  | Some _ => mkJsMap (<[name := a]> (own m)) (proto m)
  | None =>
      if decide (name = "__proto__") then mkJsMap (own m) (Some a)
      else mkJsMap (<[name := a]> (own m)) (proto m)
  end.

Inductive HandlerKind : Type := Aggregate | Instance.

(** Ghost trace of the calls the module makes into client code.  The
    [frame] of an event is the index, in the [contexts] array of the
    wrapper, of the invocation context in use ([None] on the fast path,
    which has no context). *)
Inductive Event : Type :=
| EvHandler (wid : nat) (frame : nat) (kind : HandlerKind) (index : nat) (hid : nat)
| EvOriginal (wid : nat) (frame : option nat) (this : Value) (args : list Value)
| EvReturn (wid : nat) (frame : option nat) (this : Value) (args : list Value) (v : Value)
| EvStart (phid : nat) (name : string) (state : Value).

Section Model.

(** Client state, and the build-time constant [__DEV__]. *)
Variable U : Type.
Variable __DEV__ : bool.

(** ** Client code *)

(** A client program returning an [A].  [P] is the type of the
    continuation capability: [unit] for a handler (which received
    [callback]), [Empty_set] for a function that received none.

    [Invoke] and [Proceed] are the calls of an instrumented function
    and of the continuation outside any [try]: their exception ends
    the program.  [TryInvoke] and [TryProceed] are the same calls
    inside a [try ... catch]: the program goes on with the value
    returned ([inl v], [None]) or with the exception caught ([inr e],
    [Some e]).  The exceptions client code raises and catches by itself
    need no constructor: they are control flow inside the program. *)
Inductive Code (P A : Type) : Type :=
| Ret (a : A)
| Act (f : U -> U) (k : Code P A)
| Read (k : U -> Code P A)
| Throw (e : Value)
| Invoke (wid : nat) (this : Value) (args : list Value) (k : Value -> Code P A)
| Proceed (p : P) (k : Code P A)
| TryInvoke (wid : nat) (this : Value) (args : list Value)
    (k : Value + Value -> Code P A)
| TryProceed (p : P) (k : option Value -> Code P A).
Arguments Ret {P A} a.
Arguments Act {P A} f k.
Arguments Read {P A} k.
Arguments Throw {P A} e.
Arguments Invoke {P A} wid this args k.
Arguments Proceed {P A} p k.
Arguments TryInvoke {P A} wid this args k.
Arguments TryProceed {P A} p k.

(** [type Handler = (name: string, callback: () => void) => void];
    [hid] is the identity of the function object. *)
Record Handler : Type := mkHandler {
  hid : nat;
  hbody : string -> Code unit unit
}.

(** The function given to [instrument]. *)
Definition Fn : Type := Value -> list Value -> Code Empty_set Value.

(** Client computations that do not interact with instrumented code. *)
Definition Client (A : Type) : Type := U -> Outcome A * U.

(** [type ProfileHandler = (name: string, state?: any) => () => void]. *)
Definition StopHandler : Type := Client unit.

Record ProfileHandler : Type := mkProfileHandler {
  phid : nat;
  pstart : string -> Value -> Client StopHandler
}.

(** ** Module state *)

(** An invocation context
    [[aggregateHandlers.length, handlers.length, this, arguments, NOT_INVOKED]]. *)
Record Context : Type := mkContext {
  c0 : nat;
  c1 : nat;
  c2 : Value;
  c3 : list Value;
  c4 : Slot
}.

(** The closure of one [instrumentedCallback]: [aggregateHandlers] is
    a reference to the array object held by the registry. *)
Record Wrapper : Type := mkWrapper {
  name : string;
  originalFunction : Fn;
  aggregateHandlers : nat;
  handlers : list Handler;
  contexts : list Context;
  displayName : string
}.

Record World : Type := mkWorld {
  aggregateHandlersByName : JsMap nat;
  arrays : list (list Handler);
  profileHandlersByName : JsMap (list ProfileHandler);
  enableProfile : bool;
  wrappers : list Wrapper;
  client : U;
  log : list Event
}.

Definition initial (u : U) : World :=
  mkWorld emptyMap [] emptyMap __DEV__ [] u [].

Definition set_c0 (n : nat) (c : Context) : Context :=
  mkContext n (c1 c) (c2 c) (c3 c) (c4 c).
Definition set_c1 (n : nat) (c : Context) : Context :=
  mkContext (c0 c) n (c2 c) (c3 c) (c4 c).
Definition set_c4 (s : Slot) (c : Context) : Context :=
  mkContext (c0 c) (c1 c) (c2 c) (c3 c) s.

Definition set_handlers (hs : list Handler) (wr : Wrapper) : Wrapper :=
  mkWrapper (name wr) (originalFunction wr) (aggregateHandlers wr) hs
            (contexts wr) (displayName wr).
Definition set_contexts (cs : list Context) (wr : Wrapper) : Wrapper :=
  mkWrapper (name wr) (originalFunction wr) (aggregateHandlers wr)
            (handlers wr) cs (displayName wr).

Definition set_aggregate (m : JsMap nat) (a : list (list Handler))
    (w : World) : World :=
  mkWorld m a (profileHandlersByName w) (enableProfile w) (wrappers w)
          (client w) (log w).
Definition set_profileHandlersByName (m : JsMap (list ProfileHandler))
    (w : World) : World :=
  mkWorld (aggregateHandlersByName w) (arrays w) m (enableProfile w)
          (wrappers w) (client w) (log w).
Definition set_wrappers (ws : list Wrapper) (w : World) : World :=
  mkWorld (aggregateHandlersByName w) (arrays w) (profileHandlersByName w)
          (enableProfile w) ws (client w) (log w).
Definition set_client (u : U) (w : World) : World :=
  mkWorld (aggregateHandlersByName w) (arrays w) (profileHandlersByName w)
          (enableProfile w) (wrappers w) u (log w).
Definition set_log (l : list Event) (w : World) : World :=
  mkWorld (aggregateHandlersByName w) (arrays w) (profileHandlersByName w)
          (enableProfile w) (wrappers w) (client w) l.

(** The array object behind a reference. *)
Definition array (w : World) (r : nat) : list Handler :=
  default [] (arrays w !! r).

(** ** The state and exception monad of the module *)

Definition M (A : Type) : Type := World -> Outcome A * World.

Definition ret {A} (a : A) : M A := fun w => (Ok a, w).
Definition throw {A} (e : Value) : M A := fun w => (Thrown e, w).
Definition diverge {A} : M A := fun w => (OutOfFuel, w).
Definition bind {A B} (m : M A) (k : A -> M B) : M B :=
  fun w =>
    match m w with
    | (Ok a, w1) => k a w1
    | (Thrown e, w1) => (Thrown e, w1)
    | (OutOfFuel, w1) => (OutOfFuel, w1)
    end.

Notation "'let*' x ':=' m 'in' k" := (bind m (fun x => k))
  (at level 10, x name, m at level 100, k at level 200).

(** [try { x = m; k(x) } catch (e) { h(e) }] where only [m] may throw
    what is caught; running out of budget is no exception. *)
Definition tryCatch {A B} (m : M A) (k : A -> M B) (h : Value -> M B) : M B :=
  fun w =>
    match m w with
    | (Ok a, w1) => k a w1
    | (Thrown e, w1) => h e w1
    | (OutOfFuel, w1) => (OutOfFuel, w1)
    end.

Definition emit (e : Event) : M unit :=
  fun w => (Ok tt, set_log (log w ++ [e]) w).

Definition liftClient {A} (c : Client A) : M A :=
  fun w => let (o, u) := c (client w) in (o, set_client u w).

(** Reads of the closure state of wrapper [wid]. *)
Definition getWrapper (wid : nat) : M Wrapper :=
  fun w =>
    match wrappers w !! wid with
    | Some wr => (Ok wr, w)
    | None => (Thrown typeError, w)
    end.

Definition putWrapper (wid : nat) (wr : Wrapper) : M unit :=
  fun w => (Ok tt, set_wrappers (<[wid := wr]> (wrappers w)) w).

(** Dereference of an array reference (the array is read live). *)
Definition getArray (r : nat) : M (list Handler) :=
  fun w => (Ok (array w r), w).

(** [f(...)] where [f] was read from an array: a hole is not callable. *)
Definition callable {A} (o : option A) : M A :=
  match o with
  | Some a => ret a
  | None => throw typeError
  end.

(** Field update of the context object stored at [contexts[idx]]. *)
Definition updContext (wid idx : nat) (f : Context -> Context) : M unit :=
  let* wr := getWrapper wid in
  match contexts wr !! idx with
  | Some c => putWrapper wid (set_contexts (<[idx := f c]> (contexts wr)) wr)
  | None => ret tt
  end.

(** [contexts.push(context)] and [contexts.pop()] (the latter yields
    [undefined] on an empty array, whose field read then fails). *)
Definition pushContext (wid : nat) (context : Context) : M unit :=
  let* wr := getWrapper wid in
  putWrapper wid (set_contexts (contexts wr ++ [context]) wr).

Definition popContext (wid : nat) : M Context :=
  let* wr := getWrapper wid in
  let* context := callable (last (contexts wr)) in
  let* _ := putWrapper wid (set_contexts (removelast (contexts wr)) wr) in
  ret context.

(** ** Running client code *)

(** [callback] is what [Proceed] calls, [call wid this args] what a
    call of the instrumented function [wid] does. *)
Fixpoint runCode {P A} (callback : P -> M unit)
    (call : nat -> Value -> list Value -> M Value) (c : Code P A) : M A :=
  match c with
  | Ret a => ret a
  | Act f k => fun w => runCode callback call k (set_client (f (client w)) w)
  | Read k => fun w => runCode callback call (k (client w)) w
  | Throw e => throw e
  | Invoke wid this args k =>
      let* v := call wid this args in runCode callback call (k v)
  | Proceed p k =>
      let* _ := callback p in runCode callback call k
  | TryInvoke wid this args k =>
      tryCatch (call wid this args)
        (fun v => runCode callback call (k (inl v)))
        (fun e => runCode callback call (k (inr e)))
  | TryProceed p k =>
      tryCatch (callback p)
        (fun _ => runCode callback call (k None))
        (fun e => runCode callback call (k (Some e)))
  end.

Definition noCallback : Empty_set -> M unit :=
  fun p => match p with end.

(** [originalFunction.apply(this, args)], with its ghost events. *)
Definition applyOriginal (call : nat -> Value -> list Value -> M Value)
    (wid : nat) (frame : option nat) (f : Fn) (this : Value)
    (args : list Value) : M Value :=
  let* _ := emit (EvOriginal wid frame this args) in
  let* v := runCode noCallback call (f this args) in
  let* _ := emit (EvReturn wid frame this args v) in
  ret v.

(** ** instrument: the handler chain *)

(** Body of [invokeHandlers] in the closure of wrapper [wid]; [self] is
    [invokeHandlers] itself (passed to handlers as their callback) and
    [call] the instrumented functions a handler may call. *)
Definition invokeHandlers_body (self : nat -> M unit)
    (call : nat -> Value -> list Value -> M Value) (wid : nat) : M unit :=
  let* wr := getWrapper wid in
  let idx := length (contexts wr) - 1 in
  let* context := callable (contexts wr !! idx) in
  if negb (c0 context =? 0) then
    let i := c0 context - 1 in
    let* _ := updContext wid idx (set_c0 i) in
    let* aggregate := getArray (aggregateHandlers wr) in
    let* h := callable (aggregate !! i) in
    let* _ := emit (EvHandler wid idx Aggregate i (hid h)) in
    runCode (fun _ => self wid) call (hbody h (name wr))
  else if negb (c1 context =? 0) then
    let i := c1 context - 1 in
    let* _ := updContext wid idx (set_c1 i) in
    let* wr1 := getWrapper wid in
    let* h := callable (handlers wr1 !! i) in
    let* _ := emit (EvHandler wid idx Instance i (hid h)) in
    runCode (fun _ => self wid) call (hbody h (name wr))
  else
    let* v := applyOriginal call wid (Some idx) (originalFunction wr)
                (c2 context) (c3 context) in
    updContext wid idx (set_c4 (Returned v)).

(** Body of [instrumentedCallback] in the closure of wrapper [wid]. *)
Definition instrumentedCallback_body (invokeHandlers : nat -> M unit)
    (call : nat -> Value -> list Value -> M Value) (wid : nat)
    (this : Value) (args : list Value) : M Value :=
  let* wr := getWrapper wid in
  let* aggregate := getArray (aggregateHandlers wr) in
  if (length aggregate =? 0) && (length (handlers wr) =? 0) then
    applyOriginal call wid None (originalFunction wr) this args
  else
    let* _ := pushContext wid
      (mkContext (length aggregate) (length (handlers wr))
                 this args NOT_INVOKED) in
    let* _ := invokeHandlers wid in
    let* context := popContext wid in
    match c4 context with
    | NOT_INVOKED => throw notInvokedError
    | Returned v => ret v
    end.

(** JavaScript recursion is unbounded: the chain is cut at depth [fuel]. *)
Fixpoint invokeHandlers (fuel : nat) (wid : nat) : M unit :=
  match fuel with
  | 0 => diverge
  | S n => invokeHandlers_body (invokeHandlers n) (instrumentedCallback n) wid
  end
with instrumentedCallback (fuel : nat) (wid : nat) (this : Value)
    (args : list Value) : M Value :=
  match fuel with
  | 0 => diverge
  | S n =>
      instrumentedCallback_body (invokeHandlers n) (instrumentedCallback n)
        wid this args
  end.

(** ** instrument, attach and detach *)

(** Modelled from the spec: the array-removal utility [removeFromArray],
    an external module: it removes the first identity match and does
    nothing when there is none. *)
Fixpoint removeFromArray {A} (same : A -> A -> bool) (array : list A)
    (element : A) : list A :=
  match array with
  | [] => []
  | x :: rest =>
      if same x element then rest
      else x :: removeFromArray same rest element
  end.

Definition sameHandler (h1 h2 : Handler) : bool := hid h1 =? hid h2.
Definition sameProfileHandler (h1 h2 : ProfileHandler) : bool :=
  phid h1 =? phid h2.

(** A function value in the hands of the client: a wrapper made by
    [instrument], or a plain function (which, once it went through
    [instrument] with [__DEV__] off, has [emptyFunction] as
    [attachHandler] and [detachHandler]). *)
Inductive Callable : Type :=
| Uninstrumented (f : Fn)
| Instrumented (wid : nat).

(** A property value [object[key]] as the function [instrument]
    receives: applying a wrapper calls it, applying [undefined] fails. *)
Definition asFunction (o : option Callable) : Fn :=
  match o with
  | Some (Uninstrumented f) => f
  | Some (Instrumented wid) => fun this args => Invoke wid this args Ret
  | None => fun _ _ => Throw typeError
  end.

(** [aggregateHandlersByName.hasOwnProperty(name)] and
    [aggregateHandlersByName[name]], and the same for the registry of
    the profile handlers; reading what is no array ends in a TypeError
    as soon as it is used. *)
Definition hasAggregate (name : string) : M bool :=
  fun w => (hasOwnProperty (aggregateHandlersByName w) name, w).

Definition getAggregate (name : string) : M nat :=
  fun w => callable (getProperty (aggregateHandlersByName w) name) w.

Definition hasProfile (name : string) : M bool :=
  fun w => (hasOwnProperty (profileHandlersByName w) name, w).

Definition getProfile (name : string) : M (list ProfileHandler) :=
  fun w => callable (getProperty (profileHandlersByName w) name) w.

(** [aggregateHandlersByName[name] = []], with a new array object. *)
Definition newAggregate (name : string) : M unit :=
  fun w =>
    (Ok tt,
     set_aggregate
       (setProperty (aggregateHandlersByName w) name (length (arrays w)))
       (arrays w ++ [[]]) w).

(** [if (!aggregateHandlersByName.hasOwnProperty(name))
      aggregateHandlersByName[name] = [];]
    followed by the read of [aggregateHandlersByName[name]]. *)
Definition aggregateArray (name : string) : M nat :=
  let* has := hasAggregate name in
  let* _ := if has : bool then ret tt else newAggregate name in
  getAggregate name.

Definition instrument (name : string) (originalFunction : Fn) : M Callable :=
  if __DEV__ then
    let* r := aggregateArray name in
    fun w =>
      (Ok (Instrumented (length (wrappers w))),
       set_wrappers
         (wrappers w ++
            [mkWrapper name originalFunction r [] []
                       ("(instrumented " +:+ name +:+ ")")]) w)
  else ret (Uninstrumented originalFunction).

(** Modelled from the spec: the iteration utility [forEachObject], an
    external module, "visits every own enumerable key of [mapping]
    exactly once, order unspecified"; [names] lists the entries
    [(key, name)] of the mapping in the order of that visit, whatever
    it is.  [object] gives, for the keys of [names], what [object[key]]
    reads, as data properties that an assignment creates or replaces.

    [object[key] = RelayProfiler.instrument(name, object[key])] for each
    entry; with [__DEV__] off [instrument] writes a property of its
    argument, which fails on [undefined], and returns its argument. *)
Fixpoint instrumentMethods (object : gmap string Callable)
    (names : list (string * string)) : M (gmap string Callable) :=
  match names with
  | [] => ret object
  | (key, name) :: rest =>
      let* f :=
        if __DEV__ then instrument name (asFunction (object !! key))
        else callable (object !! key) in
      instrumentMethods (<[key := f]> object) rest
  end.

(** [instrumentedCallback.attachHandler] and [.detachHandler]. *)
Definition attachHandler (f : Callable) (handler : Handler) (w : World)
    : World :=
  match f with
  | Uninstrumented _ => w
  | Instrumented wid =>
      match wrappers w !! wid with
      | Some wr =>
          set_wrappers
            (<[wid := set_handlers (handlers wr ++ [handler]) wr]> (wrappers w)) w
      | None => w
      end
  end.

Definition detachHandler (f : Callable) (handler : Handler) (w : World)
    : World :=
  match f with
  | Uninstrumented _ => w
  | Instrumented wid =>
      match wrappers w !! wid with
      | Some wr =>
          set_wrappers
            (<[wid := set_handlers
                        (removeFromArray sameHandler (handlers wr) handler) wr]>
               (wrappers w)) w
      | None => w
      end
  end.

(** [array.push(handler)] and [removeFromArray(array, handler)] on the
    array object [r]. *)
Definition pushHandler (r : nat) (handler : Handler) : M unit :=
  fun w =>
    (Ok tt,
     set_aggregate (aggregateHandlersByName w)
                   (<[r := array w r ++ [handler]]> (arrays w)) w).

Definition removeHandler (r : nat) (handler : Handler) : M unit :=
  fun w =>
    (Ok tt,
     set_aggregate (aggregateHandlersByName w)
       (<[r := removeFromArray sameHandler (array w r) handler]> (arrays w)) w).

Definition attachAggregateHandler (name : string) (handler : Handler) : M unit :=
  if __DEV__ then
    let* r := aggregateArray name in
    pushHandler r handler
  else ret tt.

Definition detachAggregateHandler (name : string) (handler : Handler) : M unit :=
  if __DEV__ then
    let* has := hasAggregate name in
    if has : bool then
      let* r := getAggregate name in
      removeHandler r handler
    else ret tt
  else ret tt.

(** Calling what [instrument] returned. *)
Definition callInstrumented (fuel : nat) (f : Callable) (this : Value)
    (args : list Value) : M Value :=
  match f with
  | Uninstrumented g => runCode noCallback (instrumentedCallback fuel) (g this args)
  | Instrumented wid => instrumentedCallback fuel wid this args
  end.

(** ** profile *)

Definition setEnableProfile (isEnabled : bool) (w : World) : World :=
  mkWorld (aggregateHandlersByName w) (arrays w) (profileHandlersByName w)
          isEnabled (wrappers w) (client w) (log w).

(** A session: the shared [defaultProfiler], or a fresh object whose
    [stop] closes over [stopHandlers] ([None] is [undefined]). *)
Inductive Session : Type :=
| defaultProfiler
| Profiler (stopHandlers : option (list StopHandler)).

(** [Array.prototype.forEach]. *)
Fixpoint forEach {A} (l : list A) (f : A -> M unit) : M unit :=
  match l with
  | [] => ret tt
  | x :: rest => let* _ := f x in forEach rest f
  end.

(** [for (let ii = profileHandlers.length - 1; ii >= 0; ii--)], with
    [n = ii + 1]. *)
Fixpoint profileLoop (name : string) (state : Value)
    (profileHandlers : list ProfileHandler) (n : nat)
    (stopHandlers : option (list StopHandler))
    : M (option (list StopHandler)) :=
  match n with
  | 0 => ret stopHandlers
  | S ii =>
      let* profileHandler := callable (profileHandlers !! ii) in
      let* _ := emit (EvStart (phid profileHandler) name state) in
      let* stopHandler := liftClient (pstart profileHandler name state) in
      profileLoop name state profileHandlers ii
        (Some (stopHandler :: default [] stopHandlers))
  end.

Definition profile (name : string) (state : Value) : M Session :=
  fun w =>
    if enableProfile w then
      (let* has := hasProfile name in
       if has : bool then
         let* profileHandlers := getProfile name in
         let* stopHandlers :=
           profileLoop name state profileHandlers (length profileHandlers) None in
         ret (Profiler stopHandlers)
       else ret defaultProfiler) w
    else (Ok defaultProfiler, w).

Definition stop (s : Session) : M unit :=
  match s with
  | defaultProfiler => ret tt
  | Profiler None => ret tt
  | Profiler (Some stopHandlers) => forEach stopHandlers liftClient
  end.

(** The arrays of profile handlers are held by value: the array changed
    through [profileHandlersByName[name]] is stored where it was read,
    under the own property or as the prototype. *)
Definition storeProperty {A} (m : JsMap A) (name : string) (a : A) : JsMap A :=
  match own m !! name with
  | Some _ => mkJsMap (<[name := a]> (own m)) (proto m)
  | None => mkJsMap (own m) (Some a)
  end.

Definition storeProfile (name : string) (hs : list ProfileHandler) : M unit :=
  fun w =>
    (Ok tt,
     set_profileHandlersByName (storeProperty (profileHandlersByName w) name hs) w).

(** [profileHandlersByName[name] = []]. *)
Definition newProfile (name : string) : M unit :=
  fun w =>
    (Ok tt,
     set_profileHandlersByName (setProperty (profileHandlersByName w) name []) w).

Definition attachProfileHandler (name : string) (handler : ProfileHandler)
    : M unit :=
  fun w =>
    if enableProfile w then
      (let* has := hasProfile name in
       let* _ := if has : bool then ret tt else newProfile name in
       let* hs := getProfile name in
       storeProfile name (hs ++ [handler])) w
    else (Ok tt, w).

Definition detachProfileHandler (name : string) (handler : ProfileHandler)
    : M unit :=
  fun w =>
    if enableProfile w then
      (let* has := hasProfile name in
       if has : bool then
         let* hs := getProfile name in
         storeProfile name (removeFromArray sameProfileHandler hs handler)
       else ret tt) w
    else (Ok tt, w).

End Model.

Arguments Ret {U P A} a.
Arguments Act {U P A} f k.
Arguments Read {U P A} k.
Arguments Throw {U P A} e.
Arguments Invoke {U P A} wid this args k.
Arguments Proceed {U P A} p k.
Arguments TryInvoke {U P A} wid this args k.
Arguments TryProceed {U P A} p k.
Arguments mkHandler {U} hid hbody.
Arguments hid {U} h.
Arguments hbody {U} h name.
Arguments mkProfileHandler {U} phid pstart.
Arguments phid {U} p.
Arguments pstart {U} p name state.
Arguments mkWrapper {U} name originalFunction aggregateHandlers handlers
  contexts displayName.
Arguments name {U} w.
Arguments originalFunction {U} w this args.
Arguments aggregateHandlers {U} w.
Arguments handlers {U} w.
Arguments contexts {U} w.
Arguments displayName {U} w.
Arguments mkWorld {U} aggregateHandlersByName arrays profileHandlersByName
  enableProfile wrappers client log.
Arguments aggregateHandlersByName {U} w.
Arguments arrays {U} w.
Arguments profileHandlersByName {U} w.
Arguments enableProfile {U} w.
Arguments wrappers {U} w.
Arguments client {U} w.
Arguments log {U} w.
Arguments initial {U} __DEV__ u.
Arguments set_handlers {U} hs wr.
Arguments set_contexts {U} cs wr.
Arguments set_aggregate {U} m a w.
Arguments set_profileHandlersByName {U} m w.
Arguments set_wrappers {U} ws w.
Arguments set_client {U} u w.
Arguments set_log {U} l w.
Arguments array {U} w r.
Arguments ret {U A} a w.
Arguments throw {U A} e w.
Arguments diverge {U A} w.
Arguments bind {U A B} m k w.
Arguments tryCatch {U A B} m k h w.
Arguments emit {U} e w.
Arguments liftClient {U A} c w.
Arguments getWrapper {U} wid w.
Arguments putWrapper {U} wid wr w.
Arguments getArray {U} r w.
Arguments callable {U A} o w.
Arguments updContext {U} wid idx f w.
Arguments pushContext {U} wid context w.
Arguments popContext {U} wid w.
Arguments runCode {U P A} callback call c w.
Arguments noCallback {U} p w.
Arguments applyOriginal {U} call wid frame f this args w.
Arguments invokeHandlers_body {U} self call wid w.
Arguments instrumentedCallback_body {U} invokeHandlers call wid this args w.
Arguments invokeHandlers {U} fuel wid w.
Arguments instrumentedCallback {U} fuel wid this args w.
Arguments sameHandler {U} h1 h2.
Arguments sameProfileHandler {U} h1 h2.
Arguments Uninstrumented {U} f.
Arguments Instrumented {U} wid.
Arguments hasAggregate {U} name w.
Arguments getAggregate {U} name w.
Arguments hasProfile {U} name w.
Arguments getProfile {U} name w.
Arguments newAggregate {U} name w.
Arguments aggregateArray {U} name w.
Arguments pushHandler {U} r handler w.
Arguments removeHandler {U} r handler w.
Arguments storeProfile {U} name hs w.
Arguments newProfile {U} name w.
Arguments instrument {U} __DEV__ name originalFunction w.
Arguments asFunction {U} o this args.
Arguments instrumentMethods {U} __DEV__ object names w.
Arguments attachHandler {U} f handler w.
Arguments detachHandler {U} f handler w.
Arguments attachAggregateHandler {U} __DEV__ name handler w.
Arguments detachAggregateHandler {U} __DEV__ name handler w.
Arguments callInstrumented {U} fuel f this args w.
Arguments setEnableProfile {U} isEnabled w.
Arguments defaultProfiler {U}.
Arguments Profiler {U} stopHandlers.
Arguments forEach {U A} l f w.
Arguments profileLoop {U} name state profileHandlers n stopHandlers w.
Arguments profile {U} name state w.
Arguments stop {U} s w.
Arguments attachProfileHandler {U} name handler w.
Arguments detachProfileHandler {U} name handler w.

Notation "'let*' x ':=' m 'in' k" := (bind m (fun x => k))
  (at level 10, x name, m at level 100, k at level 200).

(** * Vocabulary of the properties *)

(** The method [hasOwnProperty] of the registry [m] is the inherited
    one: no handler was registered under that name. *)
Definition intact {A} (m : JsMap A) : Prop := own m !! "hasOwnProperty" = None.

(** Code without [try]: the exception of a call it makes ends it. *)
Inductive plain {U P A} : Code U P A -> Prop :=
| plain_Ret a : plain (Ret a)
| plain_Act f k : plain k -> plain (Act f k)
| plain_Read k : (forall u, plain (k u)) -> plain (Read k)
| plain_Throw e : plain (Throw e)
| plain_Invoke wid this args k :
    (forall v, plain (k v)) -> plain (Invoke wid this args k)
| plain_Proceed p k : plain k -> plain (Proceed p k).

(** Proves that concrete code is [plain]. *)
Ltac plain_code :=
  repeat first
    [ progress intros
    | match goal with
      | |- plain (match ?u with _ => _ end) => destruct u
      end
    | constructor ].

Section Vocabulary.
Context {U : Type}.
Implicit Types (w : World U) (wr : Wrapper U) (evs : list Event).

(** The wrapper and invocation context an event belongs to. *)
Definition frameOf (e : Event) : option (nat * nat) :=
  match e with
  | EvHandler wid fr _ _ _ => Some (wid, fr)
  | EvOriginal wid (Some fr) _ _ => Some (wid, fr)
  | EvReturn wid (Some fr) _ _ _ => Some (wid, fr)
  | _ => None
  end.

(** Number of invocation contexts of wrapper [wid] in flight. *)
Definition depth w (wid : nat) : nat :=
  match wrappers w !! wid with
  | Some wr => length (contexts wr)
  | None => 0
  end.

(** Every event of [evs] that belongs to a context of wrapper [x] is
    about a context at index [bound x] or above. *)
Definition scoped (bound : nat -> nat) evs : Prop :=
  Forall (fun e => forall x k, frameOf e = Some (x, k) -> bound x <= k) evs.

Definition isReturn (wid : nat) (fr : option nat) (e : Event)
    : option (Value * list Value * Value) :=
  match e with
  | EvReturn wid' fr' t a v =>
      if decide (wid' = wid /\ fr' = fr) then Some (t, a, v) else None
  | _ => None
  end.

(** The last return of the original function of [wid] recorded for the
    context [fr]: receiver, arguments and value. *)
Fixpoint lastReturn (wid : nat) (fr : option nat) evs
    : option (Value * list Value * Value) :=
  match evs with
  | [] => None
  | e :: rest =>
      match lastReturn wid fr rest with
      | Some r => Some r
      | None => isReturn wid fr e
      end
  end.

Definition calledOriginal (wid : nat) (fr : option nat) evs : Prop :=
  exists t a, EvOriginal wid fr t a ∈ evs.

(** No handler and no wrapped function of the module state catches the
    exception of a call it makes. *)
Definition plainHandler (h : Handler U) : Prop := forall n, plain (hbody h n).

Definition catchFree w : Prop :=
  Forall (Forall plainHandler) (arrays w) /\
  Forall (fun wr => Forall plainHandler (handlers wr) /\
                    forall this args, plain (originalFunction wr this args))
         (wrappers w).

(** The part of the module state no invocation changes. *)
Definition static_eq w w' : Prop :=
  aggregateHandlersByName w' = aggregateHandlersByName w /\
  arrays w' = arrays w /\
  profileHandlersByName w' = profileHandlersByName w /\
  enableProfile w' = enableProfile w.

(** [w'] is [w] after complete invocations that logged [evs]: every
    wrapper, with its stack of contexts, is as before. *)
Definition Call w evs w' : Prop :=
  static_eq w w' /\
  wrappers w' = wrappers w /\
  log w' = log w ++ evs /\
  scoped (depth w) evs.

Definition chainBound w (wid idx : nat) : nat -> nat :=
  fun x => if decide (x = wid) then idx else depth w x.

(** [w'] is [w] after part of the handler chain of the context at
    [contexts[idx]] (the innermost one) of wrapper [wid] ran, logging
    [evs]: only the counters and the result slot of that context may
    differ, and the slot follows the last return logged for it. *)
Definition Chain (wid idx : nat) w evs w' : Prop :=
  static_eq w w' /\
  log w' = log w ++ evs /\
  scoped (chainBound w wid idx) evs /\
  exists wr top top',
    wrappers w !! wid = Some wr /\
    length (contexts wr) = S idx /\
    contexts wr !! idx = Some top /\
    wrappers w' =
      <[wid := set_contexts (<[idx := top']> (contexts wr)) wr]> (wrappers w) /\
    c2 top' = c2 top /\ c3 top' = c3 top /\
    match lastReturn wid (Some idx) evs with
    | Some (t, a, v) => c4 top' = Returned v /\ t = c2 top /\ a = c3 top
    | None => c4 top' = c4 top /\ ~ calledOriginal wid (Some idx) evs
    end.

(** What a returning call of [invokeHandlers] guarantees when no
    client code catches exceptions. *)
Definition chain_spec (ih : nat -> M U unit) : Prop :=
  forall wid w w', catchFree w -> ih wid w = (Ok tt, w') ->
  forall wr, wrappers w !! wid = Some wr ->
  exists evs, Chain wid (length (contexts wr) - 1) w evs w'.

(** What a returning call of an instrumented function guarantees when
    no client code catches exceptions. *)
Definition call_spec (ic : nat -> Value -> list Value -> M U Value) : Prop :=
  forall wid this args w v w', catchFree w -> ic wid this args w = (Ok v, w') ->
  exists evs, Call w evs w' /\
    exists fr, (fr = None \/ fr = Some (depth w wid)) /\
      lastReturn wid fr evs = Some (this, args, v).

(** The registries, the arrays, the flag, and every wrapper up to its
    stack of contexts. *)
Definition Stable w w' : Prop :=
  static_eq w w' /\
  set_contexts [] <$> wrappers w' = set_contexts [] <$> wrappers w.

Definition stable {A} (m : M U A) : Prop :=
  forall w o w', m w = (o, w') -> Stable w w'.

(** [m2] ends as [m1] does whenever [m1] ends within its budget. *)
Definition refines {A} (m1 m2 : M U A) : Prop :=
  forall w o w', m1 w = (o, w') -> o <> OutOfFuel -> m2 w = (o, w').

(** The original function of wrapper [wid] is the pure function [g]. *)
Definition pureOriginal (wid : nat) (g : Value -> list Value -> Value) w : Prop :=
  exists wr, wrappers w !! wid = Some wr /\
    forall t a, originalFunction wr t a = Ret (g t a).

(** Every return of the original function of [wid] in [evs] carries
    the value of [g]. *)
Definition faithful (wid : nat) (g : Value -> list Value -> Value) evs : Prop :=
  Forall (fun e => forall fr t a v, e = EvReturn wid fr t a v -> v = g t a) evs.

(** [w'] is reached from [w], where the original function of [wid] is
    [g], by steps that log faithful returns only. *)
Definition honest (wid : nat) (g : Value -> list Value -> Value) w w' : Prop :=
  pureOriginal wid g w' /\
  exists evs, log w' = log w ++ evs /\ faithful wid g evs.

(** Returning calls of [invokeHandlers], of an instrumented function,
    are honest. *)
Definition honest_chain (wid0 : nat) (g : Value -> list Value -> Value)
    (ih : nat -> M U unit) : Prop :=
  forall wid w w', catchFree w -> pureOriginal wid0 g w ->
  ih wid w = (Ok tt, w') ->
  honest wid0 g w w'.

Definition honest_call (wid0 : nat) (g : Value -> list Value -> Value)
    (ic : nat -> Value -> list Value -> M U Value) : Prop :=
  forall wid this args w v w', catchFree w -> pureOriginal wid0 g w ->
  ic wid this args w = (Ok v, w') -> honest wid0 g w w'.

(** The slot of the innermost context of wrapper [wid]. *)
Definition topSlot w (wid : nat) : option Slot :=
  match wrappers w !! wid with
  | Some wr =>
      match last (contexts wr) with
      | Some c => Some (c4 c)
      | None => None
      end
  | None => None
  end.

(** The world in which the chain of a new invocation starts. *)
Definition entered w (wid : nat) wr (this : Value) (args : list Value) : World U :=
  set_wrappers
    (<[wid := set_contexts
                (contexts wr ++
                   [mkContext (length (array w (aggregateHandlers wr)))
                              (length (handlers wr)) this args NOT_INVOKED]) wr]>
       (wrappers w)) w.




(** The stop callbacks [stops] called in turn on the client state, up
    to the first one that does not return. *)
Fixpoint runAll (stops : list (StopHandler U)) (u : U) : Outcome unit * U :=
  match stops with
  | [] => (Ok tt, u)
  | s :: rest =>
      match s u with
      | (Ok _, u1) => runAll rest u1
      | (Thrown e, u1) => (Thrown e, u1)
      | (OutOfFuel, u1) => (OutOfFuel, u1)
      end
  end.



(** [m] run [k] times in a row. *)
Fixpoint times (k : nat) (m : M U unit) : M U unit :=
  match k with
  | 0 => ret tt
  | S k' => let* _ := m in times k' m
  end.

(** The innermost context of wrapper [wid] is [top], at index [idx],
    and the wrapper has name [nm], original function [f], aggregate
    handlers [aggs] (in the array [r]) and instance handlers [insts]. *)
Definition inFlight (wid : nat) (nm : string) (f : Fn U) (r : nat)
    (aggs insts : list (Handler U)) w (idx : nat) (top : Context) : Prop :=
  exists wr,
    wrappers w !! wid = Some wr /\
    name wr = nm /\ (forall this args, originalFunction wr this args = f this args) /\
    aggregateHandlers wr = r /\ array w r = aggs /\ handlers wr = insts /\
    length (contexts wr) = S idx /\ contexts wr !! idx = Some top.

End Vocabulary.

(** Code that only acts on the client state and returns. *)
Inductive Quiet {U P A} : Code U P A -> Prop :=
| Quiet_Ret a : Quiet (Ret a)
| Quiet_Act f k : Quiet k -> Quiet (Act f k)
| Quiet_Read k : (forall u, Quiet (k u)) -> Quiet (Read k).

(** A handler that calls its continuation exactly once, whatever the
    client state, and otherwise only acts on the client state. *)
Inductive Once {U} : Code U unit unit -> Prop :=
| Once_Act f k : Once k -> Once (Act f k)
| Once_Read k : (forall u, Once (k u)) -> Once (Read k)
| Once_Proceed p k : Quiet k -> Once (Proceed p k).

(** The calls into client code made for wrapper [wid], in order. *)
Inductive CallTo : Type :=
| ToHandler (kind : HandlerKind) (index : nat)
| ToOriginal (this : Value) (args : list Value).

Definition callOf (wid : nat) (e : Event) : option CallTo :=
  match e with
  | EvHandler wid' _ kind i _ =>
      if decide (wid' = wid) then Some (ToHandler kind i) else None
  | EvOriginal wid' _ this args =>
      if decide (wid' = wid) then Some (ToOriginal this args) else None
  | _ => None
  end.

Definition callsOf (wid : nat) (evs : list Event) : list CallTo :=
  omap (callOf wid) evs.

(** The events logged after [w] up to [w']. *)
Definition trace {U} (w w' : World U) : list Event :=
  drop (length (log w)) (log w').

(** Handlers [n-1], ..., [0] of [hs] entered in that order. *)
Fixpoint countdown {U} (wid fr : nat) (kind : HandlerKind)
    (hs : list (Handler U)) (n : nat) : list Event :=
  match n with
  | 0 => []
  | S i =>
      match hs !! i with
      | Some h => EvHandler wid fr kind i (hid h) :: countdown wid fr kind hs i
      | None => []
      end
  end.

(** ** The operations of the module *)

Section Api.
Context {U : Type}.
Variable __DEV__ : bool.
Implicit Types (w : World U) (wr : Wrapper U).

Inductive Op : Type :=
| OpSetEnableProfile (isEnabled : bool)
| OpInstrument (name : string) (originalFunction : Fn U)
| OpInstrumentMethods (object : gmap string (Callable U))
    (names : list (string * string))
| OpAttachHandler (f : Callable U) (handler : Handler U)
| OpDetachHandler (f : Callable U) (handler : Handler U)
| OpAttachAggregateHandler (name : string) (handler : Handler U)
| OpDetachAggregateHandler (name : string) (handler : Handler U)
| OpCall (fuel : nat) (f : Callable U) (this : Value) (args : list Value)
| OpProfile (name : string) (state : Value)
| OpStop (session : Session U)
| OpAttachProfileHandler (name : string) (handler : ProfileHandler U)
| OpDetachProfileHandler (name : string) (handler : ProfileHandler U).

(** The module state after an operation. *)
Definition step (op : Op) w : World U :=
  match op with
  | OpSetEnableProfile b => setEnableProfile b w
  | OpInstrument n f => snd (instrument __DEV__ n f w)
  | OpInstrumentMethods o ns => snd (instrumentMethods __DEV__ o ns w)
  | OpAttachHandler f h => attachHandler f h w
  | OpDetachHandler f h => detachHandler f h w
  | OpAttachAggregateHandler n h => snd (attachAggregateHandler __DEV__ n h w)
  | OpDetachAggregateHandler n h => snd (detachAggregateHandler __DEV__ n h w)
  | OpCall fuel f this args => snd (callInstrumented fuel f this args w)
  | OpProfile n s => snd (profile n s w)
  | OpStop s => snd (stop s w)
  | OpAttachProfileHandler n h => snd (attachProfileHandler n h w)
  | OpDetachProfileHandler n h => snd (detachProfileHandler n h w)
  end.

Definition isAttach (op : Op) : bool :=
  match op with
  | OpAttachHandler _ _ | OpAttachAggregateHandler _ _
  | OpAttachProfileHandler _ _ => true
  | _ => false
  end.

(** The keys of the two registries. *)
Definition aggregateKeys w : gset string := dom (own (aggregateHandlersByName w)).
Definition profileKeys w : gset string := dom (own (profileHandlersByName w)).

(** The keys of a registry with keys [ks] after
    [if (!m.hasOwnProperty(n)) m[n] = []] was run for the names [ns] in
    turn, up to the first failure: the check fails once
    ["hasOwnProperty"] is a key, and ["__proto__"] never becomes one. *)
Fixpoint keysAfter (ks : gset string) (ns : list string) : gset string :=
  match ns with
  | [] => ks
  | n :: rest =>
      if decide ("hasOwnProperty" ∈ ks) then ks
      else keysAfter (if decide (n = "__proto__") then ks else ks ∪ {[n]}) rest
  end.

(** The names an operation runs that statement for, on the aggregate
    registry and on the profile registry. *)
Definition aggregateNamesOf (op : Op) : list string :=
  match op with
  | OpInstrument n _ | OpAttachAggregateHandler n _ => [n]
  | OpInstrumentMethods _ ns => snd <$> ns
  | _ => []
  end.

Definition profileNamesOf (op : Op) : list string :=
  match op with
  | OpAttachProfileHandler n _ => [n]
  | _ => []
  end.

(** The array a wrapper captured is the one the registry holds for its
    name; a wrapper whose name is no key of the registry (the name
    ["__proto__"]) captured an array without handlers. *)
Definition wf w : Prop :=
  Forall (fun wr =>
            match own (aggregateHandlersByName w) !! name wr with
            | Some r => aggregateHandlers wr = r
            | None => array w (aggregateHandlers wr) = []
            end)
         (wrappers w).

(** The aggregate handlers registered under a name. *)
Definition aggregateList w (n : string) : list (Handler U) :=
  match own (aggregateHandlersByName w) !! n with
  | Some r => array w r
  | None => []
  end.

End Api.

Arguments Op : clear implicits.

Section ApiVocabulary.
Context {U : Type}.
Implicit Types (w : World U).


Definition steps (__DEV__ : bool) (ops : list (Op U)) w : World U :=
  foldl (fun w0 op => step __DEV__ op w0) w ops.

End ApiVocabulary.

(** * Vocabulary of the further properties *)

(** The statement [if (!m.hasOwnProperty(n)) m[n] = []], followed by a
    read of [m[n]], succeeds on the registry [m] and finds the array
    of the key [n]: the check does not fail, and the name is a key
    afterwards, which ["__proto__"] never becomes. *)
Definition registers {A} (m : JsMap A) (n : string) : bool :=
  bool_decide (own m !! "hasOwnProperty" = None) &&
  bool_decide (n <> "__proto__" \/ is_Some (own m !! n)).

Section RegistryVocabulary.
Context {U : Type}.
Implicit Types (w : World U) (wr : Wrapper U).

(** Every reference of the registry [m] is one of the [len] allocated
    arrays, and two names never share an array. *)
Definition refsOk (m : gmap string nat) (len : nat) : Prop :=
  (forall n r, m !! n = Some r -> r < len) /\
  (forall n1 n2 r, m !! n1 = Some r -> m !! n2 = Some r -> n1 = n2).

(** The wrapper [wr] holds an array that is allocated and that the
    registry [m] holds under no name. *)
Definition detached (m : gmap string nat) (len : nat) wr : Prop :=
  name wr = "__proto__" /\ aggregateHandlers wr < len /\
  forall n, m !! n <> Some (aggregateHandlers wr).

(** The aliasing discipline of the aggregate registry: names hold
    distinct allocated arrays, ["__proto__"] is no key, wrappers hold
    the array of their name, and the wrappers whose name is no key are
    those named ["__proto__"], whose array nothing else holds and which
    is empty. *)
Definition sound w : Prop :=
  wf w /\
  refsOk (own (aggregateHandlersByName w)) (length (arrays w)) /\
  own (aggregateHandlersByName w) !! "__proto__" = None /\
  Forall (fun wr =>
            own (aggregateHandlersByName w) !! name wr = None ->
            detached (own (aggregateHandlersByName w)) (length (arrays w)) wr)
         (wrappers w).

(** Every wrapper carries the display name made from its name. *)
Definition named w : Prop :=
  Forall (fun wr => displayName wr = "(instrumented " +:+ name wr +:+ ")")
         (wrappers w).

(** No wrapper, no aggregate key, no array. *)
Definition inert w : Prop :=
  wrappers w = [] /\ aggregateHandlersByName w = emptyMap /\ arrays w = [].

(** The handler [h] (the function object) occurs in [hs]. *)
Definition attached (h : Handler U) (hs : list (Handler U)) : Prop :=
  Exists (fun h' => hid h' = hid h) hs.

Definition attachedProfile (h : ProfileHandler U) (hs : list (ProfileHandler U))
    : Prop :=
  Exists (fun h' => phid h' = phid h) hs.

(** The profile handlers registered under a name. *)
Definition profileList w (n : string) : list (ProfileHandler U) :=
  default [] (own (profileHandlersByName w) !! n).

(** The instance handlers of the wrapper behind a function value. *)
Definition instanceList w (f : Callable U) : list (Handler U) :=
  match f with
  | Instrumented wid =>
      match wrappers w !! wid with
      | Some wr => handlers wr
      | None => []
      end
  | Uninstrumented _ => []
  end.

End RegistryVocabulary.

Section CountingVocabulary.
Context {U : Type}.
Implicit Types (w : World U) (wr : Wrapper U) (evs : list Event).








End CountingVocabulary.

Section UnwindingVocabulary.
Context {U : Type}.
Implicit Types (w : World U) (wr : Wrapper U) (evs : list Event).





End UnwindingVocabulary.

Section FlagVocabulary.
Context {U : Type}.
Implicit Types (w : World U).



(** The wrapper [instrumentMethods] makes for the entry [(key, name)]
    of [names]. *)
Definition wraps (object : gmap string (Callable U)) (kn : string * string)
    (wr : Wrapper U) : Prop :=
  name wr = kn.2 /\ originalFunction wr = asFunction (object !! kn.1) /\
  handlers wr = [] /\ contexts wr = [] /\
  displayName wr = "(instrumented " +:+ kn.2 +:+ ")".

End FlagVocabulary.

(** * Example worlds *)


(** A handler that counts in the client state before and after its
    continuation. *)
Definition passThrough (i : nat) : Handler nat :=
  mkHandler i (fun _ => Act S (Proceed tt (Act S (Ret tt)))).


(** A handler that, the first time, calls the instrumented function 0
    again before it proceeds. *)
Definition guarded (i : nat) : Handler nat :=
  mkHandler i (fun _ =>
    Read (fun u =>
      match u with
      | 0 => Act S (Invoke 0 (VNum 2) [] (fun _ => Proceed tt (Ret tt)))
      | _ => Proceed tt (Ret tt)
      end)).

Definition answer : Fn nat := fun _ _ => Ret (VNum 42).
Definition receiver : Fn nat := fun this _ => Ret this.

(** [instrument('f', answer)] with two aggregate handlers and two
    instance handlers. *)
Definition exOrdered : World nat :=
  attachHandler (Instrumented 0) (passThrough 4)
    (attachHandler (Instrumented 0) (passThrough 3)
       (snd (attachAggregateHandler true "f" (passThrough 2)
          (snd (attachAggregateHandler true "f" (passThrough 1)
             (snd (instrument true "f" answer (initial true 0)))))))).

Definition wrOrdered : Wrapper nat :=
  mkWrapper "f" answer 0 [passThrough 3; passThrough 4] [] "(instrumented f)".





(** [instrument('f', receiver)] with the [guarded] handler, and the
    world in which that handler, run for the call [f.call(1)], calls
    [f.call(2)]. *)
Definition exRecursive : World nat :=
  attachHandler (Instrumented 0) (guarded 7)
    (snd (instrument true "f" receiver (initial true 0))).

Definition wrRecursive : Wrapper nat :=
  mkWrapper "f" receiver 0 [guarded 7] [] "(instrumented f)".

Definition exNested : World nat :=
  mkWorld (mkJsMap {["f" := 0]} None) [[]] emptyMap true
    [mkWrapper "f" receiver 0 [guarded 7]
       [mkContext 0 0 (VNum 1) [] NOT_INVOKED] "(instrumented f)"]
    1 [EvHandler 0 0 Instance 0 7].

(** A profile handler over a client state that lists what ran: starting
    appends [i], stopping appends [10 + i]. *)
Definition marker (i : nat) : ProfileHandler (list nat) :=
  mkProfileHandler i
    (fun _ _ u => (Ok (fun u' => (Ok tt, u' ++ [10 + i])), u ++ [i])).

Definition exProfile : World (list nat) :=
  snd (attachProfileHandler "y" (marker 2)
         (snd (attachProfileHandler "y" (marker 1) (initial true [])))).

Definition exSession : Session (list nat) :=
  Profiler (Some [fun u' => (Ok tt, u' ++ [11]); fun u' => (Ok tt, u' ++ [12])]).

Definition exStarted : World (list nat) :=
  snd (profile "y" (VNum 5) exProfile).






(** An object with the method [a], and names for [a] and for a method
    [b] it does not have. *)
Definition exObject : gmap string (Callable nat) :=
  {["a" := Uninstrumented answer]}.

Definition exNames : list (string * string) := [("a", "A.a"); ("b", "A.b")].

(** The operations that build [exOrdered] and [exPlain]. *)
Definition opsOrdered : list (Op nat) :=
  [OpInstrument "f" answer;
   OpAttachAggregateHandler "f" (passThrough 1);
   OpAttachAggregateHandler "f" (passThrough 2);
   OpAttachHandler (Instrumented 0) (passThrough 3);
   OpAttachHandler (Instrumented 0) (passThrough 4)].






(** A handler that, the first time, calls the instrumented function 0
    again inside a [try], ignores what it catches and proceeds, and
    that throws every other time:
    [if (first) { first = false; try { f.call(2) } catch (e) {}; callback() }
     else throw 'boom']. *)
Definition retrying (i : nat) : Handler nat :=
  mkHandler i (fun _ =>
    Read (fun u =>
      match u with
      | 0 => Act S (TryInvoke 0 (VNum 2) [] (fun _ => Proceed tt (Ret tt)))
      | _ => Throw (VStr "boom")
      end)).

(** [instrument('f', receiver)] with the [retrying] handler, and with a
    handler that only proceeds. *)
Definition exRetrying : World nat :=
  attachHandler (Instrumented 0) (retrying 7)
    (snd (instrument true "f" receiver (initial true 0))).

Definition wrRetrying : Wrapper nat :=
  mkWrapper "f" receiver 0 [retrying 7] [] "(instrumented f)".



(** * Properties *)

(** ** Stepping through monadic code *)

Section Steps.
Context {U : Type}.
Implicit Types (w : World U) (wr : Wrapper U).

Lemma bind_Ok {A B} (m : M U A) (k : A -> M U B) w b w' :
  bind m k w = (Ok b, w') ->
  exists a w1, m w = (Ok a, w1) /\ k a w1 = (Ok b, w').
Proof.
  unfold bind. destruct (m w) as [[a | e |] w1]; intros H; try discriminate.
  eauto.
Qed.

Lemma bind_step {A B} (m : M U A) (k : A -> M U B) w a w1 :
  m w = (Ok a, w1) -> bind m k w = k a w1.
Proof. unfold bind. intros ->. reflexivity. Qed.

Lemma getWrapper_Ok wid w wr w' :
  getWrapper wid w = (Ok wr, w') -> w' = w /\ wrappers w !! wid = Some wr.
Proof.
  unfold getWrapper. destruct (wrappers w !! wid); intros H; inversion H; auto.
Qed.

Lemma callable_Ok {A} (o : option A) w a w' :
  callable o w = (Ok a, w') -> w' = w /\ o = Some a.
Proof. destruct o; cbn; intros H; inversion H; auto. Qed.

Lemma getArray_Ok r w l w' :
  getArray r w = (Ok l, w') -> w' = w /\ l = array w r.
Proof. unfold getArray. intros H; inversion H; auto. Qed.

Lemma updContext_Ok wid idx f w x w' :
  updContext wid idx f w = (Ok x, w') ->
  exists wr, wrappers w !! wid = Some wr /\
    w' = match contexts wr !! idx with
         | Some c =>
             set_wrappers
               (<[wid := set_contexts (<[idx := f c]> (contexts wr)) wr]>
                  (wrappers w)) w
         | None => w
         end.
Proof.
  unfold updContext. intros H.
  apply bind_Ok in H as (wr & w1 & Hg & H).
  apply getWrapper_Ok in Hg as [-> Hwr].
  exists wr. split; [done |].
  destruct (contexts wr !! idx); cbn in H; inversion H; reflexivity.
Qed.

Lemma pushContext_Ok wid c w x w' :
  pushContext wid c w = (Ok x, w') ->
  exists wr, wrappers w !! wid = Some wr /\
    w' = set_wrappers
           (<[wid := set_contexts (contexts wr ++ [c]) wr]> (wrappers w)) w.
Proof.
  unfold pushContext. intros H.
  apply bind_Ok in H as (wr & w1 & Hg & H).
  apply getWrapper_Ok in Hg as [-> Hwr].
  exists wr. split; [done |]. cbn in H. by inversion H.
Qed.

Lemma popContext_Ok wid w c w' :
  popContext wid w = (Ok c, w') ->
  exists wr, wrappers w !! wid = Some wr /\ last (contexts wr) = Some c /\
    w' = set_wrappers
           (<[wid := set_contexts (removelast (contexts wr)) wr]> (wrappers w)) w.
Proof.
  unfold popContext. intros H.
  apply bind_Ok in H as (wr & w1 & Hg & H).
  apply getWrapper_Ok in Hg as [-> Hwr].
  apply bind_Ok in H as (c' & w1 & Hg & H).
  apply callable_Ok in Hg as [-> Hc].
  apply bind_Ok in H as (x & w1 & Hg & H).
  cbn in Hg, H. inversion Hg; inversion H; subst.
  exists wr. by repeat split.
Qed.

End Steps.

(** Inverts a hypothesis [(let* x := m in k) w = (Ok b, w')]. *)
Tactic Notation "bind_inv" hyp(H) "as" ident(a) ident(w1) ident(H1) :=
  apply bind_Ok in H as (a & w1 & H1 & H).

(** ** Frames and the ghost trace *)

Section Frames.
Context {U : Type}.
Implicit Types (w : World U) (wr : Wrapper U) (evs : list Event).

Lemma static_eq_refl w : static_eq w w.
Proof. repeat split. Qed.

Lemma static_eq_trans w1 w2 w3 :
  static_eq w1 w2 -> static_eq w2 w3 -> static_eq w1 w3.
Proof.
  intros (?&?&?&?) (?&?&?&?). repeat split; congruence.
Qed.

Lemma scoped_app bound evs1 evs2 :
  scoped bound evs1 -> scoped bound evs2 -> scoped bound (evs1 ++ evs2).
Proof. unfold scoped. intros. apply Forall_app. auto. Qed.

Lemma scoped_mono (b1 b2 : nat -> nat) evs :
  (forall x, b2 x <= b1 x) -> scoped b1 evs -> scoped b2 evs.
Proof.
  intros Hb Hs. unfold scoped. eapply Forall_impl; [exact Hs |].
  intros e He x k Hf. specialize (He x k Hf). specialize (Hb x). lia.
Qed.

Lemma lastReturn_app wid fr evs1 evs2 :
  lastReturn wid fr (evs1 ++ evs2) =
  match lastReturn wid fr evs2 with
  | Some r => Some r
  | None => lastReturn wid fr evs1
  end.
Proof.
  induction evs1 as [| e evs1 IH]; cbn.
  - destruct (lastReturn wid fr evs2); reflexivity.
  - rewrite IH. destruct (lastReturn wid fr evs2); reflexivity.
Qed.

Lemma calledOriginal_app wid fr evs1 evs2 :
  calledOriginal wid fr (evs1 ++ evs2) <->
  calledOriginal wid fr evs1 \/ calledOriginal wid fr evs2.
Proof.
  unfold calledOriginal. split.
  - intros (t & a & H). apply elem_of_app in H as [H | H]; eauto.
  - intros [(t & a & H) | (t & a & H)]; exists t, a; apply elem_of_app; auto.
Qed.

(** Events of deeper contexts say nothing about the context at [idx]. *)
Lemma scoped_silent bound evs wid idx :
  scoped bound evs -> idx < bound wid ->
  lastReturn wid (Some idx) evs = None /\ ~ calledOriginal wid (Some idx) evs.
Proof.
  intros Hs Hlt. induction Hs as [| e evs He Hs [IH1 IH2]]; cbn.
  - split; [done |]. intros (t & a & H). by apply elem_of_nil in H.
  - rewrite IH1. split.
    + destruct e as [| | x fr' t a v |]; cbn; try done.
      case_decide as Hd; [| done]. destruct Hd as [-> ->].
      specialize (He wid idx eq_refl). lia.
    + intros (t & a & H). apply elem_of_cons in H as [<- | H].
      * specialize (He wid idx eq_refl). lia.
      * apply IH2. by exists t, a.
Qed.

End Frames.

(** ** Composition of runs *)

Section Composition.
Context {U : Type}.
Implicit Types (w : World U) (wr : Wrapper U) (evs : list Event).

Lemma set_contexts_id wr : set_contexts (contexts wr) wr = wr.
Proof. by destruct wr. Qed.

Lemma Call_refl w : Call w [] w.
Proof.
  split; [apply static_eq_refl |]. split; [done |].
  split; [by rewrite app_nil_r | constructor].
Qed.

Lemma depth_eq w w' : wrappers w' = wrappers w -> depth w' = depth w.
Proof. intros H. unfold depth. by rewrite H. Qed.

Lemma Call_trans w1 evs1 w2 evs2 w3 :
  Call w1 evs1 w2 -> Call w2 evs2 w3 -> Call w1 (evs1 ++ evs2) w3.
Proof.
  intros (Hs1 & Hw1 & Hl1 & Hb1) (Hs2 & Hw2 & Hl2 & Hb2).
  split; [by eapply static_eq_trans |].
  split; [congruence |].
  split; [by rewrite Hl2, Hl1, app_assoc |].
  apply scoped_app; [done |]. by rewrite <- (depth_eq _ _ Hw1).
Qed.

Lemma Call_client w evs w' u :
  Call w evs w' -> Call w evs (set_client u w').
Proof. intros (Hs & Hw & Hl & Hb). by repeat split; try apply Hs. Qed.

Lemma chainBound_le w wid idx x :
  depth w wid = S idx -> chainBound w wid idx x <= depth w x.
Proof.
  intros Hd. unfold chainBound. case_decide; [subst; lia | lia].
Qed.

Lemma Chain_depth wid idx w evs w' :
  Chain wid idx w evs w' ->
  (forall x, depth w' x = depth w x) /\ depth w wid = S idx.
Proof.
  intros (_ & _ & _ & wr & top & top' & Hwr & Hlen & _ & Hw' & _).
  split.
  - intros x. unfold depth. rewrite Hw'.
    destruct (decide (x = wid)) as [-> |].
    + rewrite list_lookup_insert_eq by (by eapply lookup_lt_Some).
      rewrite Hwr. cbn. by rewrite length_insert.
    + by rewrite list_lookup_insert_ne.
  - unfold depth. by rewrite Hwr.
Qed.

(** A change of the counters of the innermost context. *)
Lemma Chain_upd wid idx w wr top (f : Context -> Context) :
  wrappers w !! wid = Some wr ->
  length (contexts wr) = S idx ->
  contexts wr !! idx = Some top ->
  c2 (f top) = c2 top -> c3 (f top) = c3 top -> c4 (f top) = c4 top ->
  Chain wid idx w []
    (set_wrappers
       (<[wid := set_contexts (<[idx := f top]> (contexts wr)) wr]> (wrappers w))
       w).
Proof.
  intros Hwr Hlen Htop H2 H3 H4.
  split; [by repeat split |].
  split; [cbn; by rewrite app_nil_r |].
  split; [constructor |].
  exists wr, top, (f top). repeat split; try done.
  intros (t & a & H). by apply elem_of_nil in H.
Qed.

Lemma Chain_refl wid idx w wr :
  wrappers w !! wid = Some wr -> length (contexts wr) = S idx ->
  Chain wid idx w [] w.
Proof.
  intros Hwr Hlen.
  destruct (lookup_lt_is_Some_2 (contexts wr) idx) as [top Htop]; [lia |].
  pose proof (Chain_upd wid idx w wr top (fun c => c) Hwr Hlen Htop
                eq_refl eq_refl eq_refl) as H.
  cbn beta in H.
  rewrite (list_insert_id _ _ _ Htop), set_contexts_id,
    (list_insert_id _ _ _ Hwr) in H.
  by destruct w.
Qed.

Lemma Chain_client wid idx w evs w' u :
  Chain wid idx w evs w' -> Chain wid idx w evs (set_client u w').
Proof.
  intros (Hs & Hl & Hb & H). split; [by repeat split; try apply Hs |].
  by repeat split.
Qed.

(** A handler is entered for the innermost context. *)
Lemma Chain_emit_handler wid idx w evs w' kind i h :
  Chain wid idx w evs w' ->
  Chain wid idx w (evs ++ [EvHandler wid idx kind i h])
    (set_log (log w' ++ [EvHandler wid idx kind i h]) w').
Proof.
  intros (Hs & Hl & Hb & wr & top & top' & Hwr & Hlen & Htop & Hw' & H2 & H3 & H4).
  split; [by repeat split; try apply Hs |].
  split; [cbn; by rewrite Hl, app_assoc |].
  split.
  { apply scoped_app; [done |]. constructor; [| constructor].
    intros x k Hx. cbn in Hx. inversion Hx; subst.
    unfold chainBound. by rewrite decide_True. }
  exists wr, top, top'. repeat split; try done.
  rewrite lastReturn_app. cbn.
  destruct (lastReturn wid (Some idx) evs) as [[[t a] v] |]; [done |].
  destruct H4 as [H4 Hno]. split; [done |].
  rewrite calledOriginal_app. intros [H | (t & a & H)]; [done |].
  apply list_elem_of_singleton in H. discriminate.
Qed.

Lemma Chain_trans wid idx w1 evs1 w2 evs2 w3 :
  Chain wid idx w1 evs1 w2 -> Chain wid idx w2 evs2 w3 ->
  Chain wid idx w1 (evs1 ++ evs2) w3.
Proof.
  intros C1 C2. destruct (Chain_depth _ _ _ _ _ C1) as [Hd1 Hd1'].
  destruct C1 as (Hs1 & Hl1 & Hb1 & wr & top & top1 & Hwr & Hlen & Htop &
                  Hw2 & H2 & H3 & H4).
  destruct C2 as (Hs2 & Hl2 & Hb2 & wr' & top1' & top2 & Hwr' & Hlen' & Htop' &
                  Hw3 & H2' & H3' & H4').
  assert (Hlt : wid < length (wrappers w1)) by (by eapply lookup_lt_Some).
  rewrite Hw2, list_lookup_insert_eq in Hwr' by done.
  inversion Hwr'; subst wr'; clear Hwr'. cbn in *.
  rewrite list_lookup_insert_eq in Htop' by lia.
  inversion Htop'; subst top1'; clear Htop'.
  split; [by eapply static_eq_trans |].
  split; [by rewrite Hl2, Hl1, app_assoc |].
  split.
  { apply scoped_app; [done |]. eapply scoped_mono; [| exact Hb2].
    intros x. unfold chainBound. case_decide; [done |]. by rewrite Hd1. }
  exists wr, top, top2. repeat split; try done; try congruence.
  { rewrite Hw3, Hw2, list_insert_insert_eq, list_insert_insert_eq.
    by destruct wr. }
  rewrite lastReturn_app.
  destruct (lastReturn wid (Some idx) evs2) as [[[t a] v] |].
  - destruct H4' as (? & ? & ?). repeat split; congruence.
  - destruct H4' as [H4' Hno2].
    destruct (lastReturn wid (Some idx) evs1) as [[[t a] v] |].
    + destruct H4 as (? & ? & ?). repeat split; congruence.
    + destruct H4 as [H4 Hno1]. split; [congruence |].
      rewrite calledOriginal_app. tauto.
Qed.

(** A complete nested invocation inside the chain. *)
Lemma Chain_Call wid idx w1 evs1 w2 evs2 w3 :
  Chain wid idx w1 evs1 w2 -> Call w2 evs2 w3 ->
  Chain wid idx w1 (evs1 ++ evs2) w3.
Proof.
  intros C1 (Hs2 & Hw3 & Hl3 & Hb3).
  destruct (Chain_depth _ _ _ _ _ C1) as [Hd1 Hd1'].
  destruct C1 as (Hs1 & Hl1 & Hb1 & wr & top & top1 & Hwr & Hlen & Htop &
                  Hw2 & H2 & H3 & H4).
  split; [by eapply static_eq_trans |].
  split; [by rewrite Hl3, Hl1, app_assoc |].
  split.
  { apply scoped_app; [done |].
    eapply scoped_mono; [| exact Hb3]. intros x. rewrite Hd1.
    by apply chainBound_le. }
  exists wr, top, top1. repeat split; try done; try congruence.
  destruct (scoped_silent _ _ wid idx Hb3) as [Hr Hno]; [rewrite Hd1; lia |].
  rewrite lastReturn_app, Hr.
  destruct (lastReturn wid (Some idx) evs1) as [[[t a] v] |]; [done |].
  destruct H4 as [H4 Hno1]. split; [done |].
  rewrite calledOriginal_app. tauto.
Qed.

Lemma Stable_refl w : Stable w w.
Proof. split; [apply static_eq_refl | done]. Qed.

Lemma Stable_trans w1 w2 w3 : Stable w1 w2 -> Stable w2 w3 -> Stable w1 w3.
Proof.
  intros [Hs1 Hw1] [Hs2 Hw2]. split; [by eapply static_eq_trans | congruence].
Qed.

(** Replacing the stack of contexts of a wrapper. *)
Lemma Stable_contexts w wid wr cs :
  wrappers w !! wid = Some wr ->
  Stable w (set_wrappers (<[wid := set_contexts cs wr]> (wrappers w)) w).
Proof.
  intros Hwr. split; [by repeat split |]. cbn.
  rewrite list_fmap_insert. apply list_insert_id.
  by rewrite list_lookup_fmap, Hwr.
Qed.

(** Runs of the chain change the stacks of contexts only. *)
Lemma Chain_Stable wid idx w evs w' : Chain wid idx w evs w' -> Stable w w'.
Proof.
  intros (Hs & _ & _ & wr & top & top' & Hwr & _ & _ & Hw' & _).
  split; [done |]. rewrite Hw', list_fmap_insert. cbn.
  apply list_insert_id. by rewrite list_lookup_fmap, Hwr.
Qed.

Lemma Call_Stable w evs w' : Call w evs w' -> Stable w w'.
Proof. intros (Hs & Hw & _). split; [done |]. by rewrite Hw. Qed.

Lemma catchFree_Stable w w' : Stable w w' -> catchFree w -> catchFree w'.
Proof.
  intros [(_ & Ha & _) Hw] [H1 H2]. split; [by rewrite Ha |].
  set (P := fun wr : Wrapper U =>
              Forall plainHandler (handlers wr) /\
              forall this args, plain (originalFunction wr this args)).
  assert (H3 : Forall P (set_contexts [] <$> wrappers w)).
  { apply Forall_fmap. eapply Forall_impl; [exact H2 |]. by intros wr. }
  rewrite <- Hw in H3. apply Forall_fmap in H3.
  eapply Forall_impl; [exact H3 |]. by intros wr.
Qed.

Lemma catchFree_client w u : catchFree w -> catchFree (set_client u w).
Proof. done. Qed.

Lemma catchFree_log w l : catchFree w -> catchFree (set_log l w).
Proof. done. Qed.

(** The handlers and the function of a wrapper, when no client code
    catches exceptions. *)
Lemma catchFree_wrapper w wid wr :
  catchFree w -> wrappers w !! wid = Some wr ->
  Forall plainHandler (handlers wr) /\
  (forall this args, plain (originalFunction wr this args)).
Proof.
  intros [_ H] Hwr. rewrite Forall_lookup in H. exact (H _ _ Hwr).
Qed.

Lemma catchFree_array w r h i :
  catchFree w -> array w r !! i = Some h -> plainHandler h.
Proof.
  intros [H _] Hh. unfold array in Hh.
  destruct (arrays w !! r) as [hs |] eqn:E; cbn in Hh; [| done].
  rewrite Forall_lookup in H. specialize (H _ _ E).
  rewrite Forall_lookup in H. exact (H _ _ Hh).
Qed.

End Composition.

(** ** The invariant of the handler chain *)

Section ChainInvariant.
Context {U : Type}.
Implicit Types (w : World U) (wr : Wrapper U) (evs : list Event).

(** An invariant kept by the client's own actions, by its continuation
    and by the instrumented functions it calls is kept by client code
    without [try] (when it returns). *)
Lemma runCode_inv {P A} (I : World U -> Prop) (callback : P -> M U unit)
    (call : nat -> Value -> list Value -> M U Value) :
  (forall u w, I w -> I (set_client u w)) ->
  (forall p w w', I w -> callback p w = (Ok tt, w') -> I w') ->
  (forall wid t a w v w', I w -> call wid t a w = (Ok v, w') -> I w') ->
  forall (c : Code U P A), plain c ->
  forall w a w', I w -> runCode callback call c w = (Ok a, w') -> I w'.
Proof.
  intros Hu Hcb Hcall c Hc.
  induction Hc as [a0 | f k Hk IH | k Hk IH | e | wid t a0 k Hk IH | p k Hk IH];
    intros w a w' Hw Hrun; cbn in Hrun.
  - inversion Hrun; by subst.
  - eapply IH; [| exact Hrun]. by apply Hu.
  - eapply IH; [| exact Hrun]. done.
  - discriminate.
  - bind_inv Hrun as v w1 Hc. eapply IH; [| exact Hrun]. eapply Hcall; eauto.
  - bind_inv Hrun as x w1 Hc. destruct x.
    eapply IH; [| exact Hrun]. eapply Hcb; eauto.
Qed.

Lemma applyOriginal_Ok call wid fr f this args w v w' :
  call_spec call -> catchFree w -> plain (f this args) ->
  applyOriginal call wid fr f this args w = (Ok v, w') ->
  exists evs,
    static_eq w w' /\ wrappers w' = wrappers w /\
    log w' =
      log w ++ EvOriginal wid fr this args :: evs ++ [EvReturn wid fr this args v] /\
    scoped (depth w) evs.
Proof.
  intros Hcall Hcf Hf H. unfold applyOriginal in H.
  bind_inv H as x w1 He. cbn in He. inversion He; subst x w1; clear He.
  bind_inv H as v0 w2 Hm. bind_inv H as x w3 He.
  cbn in He, H. inversion He; inversion H; subst; clear He H.
  set (w1 := set_log (log w ++ [EvOriginal wid fr this args]) w) in *.
  assert (HI : exists evs, Call w1 evs w2).
  { eapply (runCode_inv (fun x => exists evs, Call w1 evs x));
      [| | | exact Hf | | exact Hm].
    - intros u x [evs Hx]. exists evs. by apply Call_client.
    - intros [].
    - intros wid' t a x v' x' [evs Hx] Hc.
      assert (Hcfx : catchFree x)
        by (eapply catchFree_Stable; [by eapply Call_Stable | exact Hcf]).
      destruct (Hcall _ _ _ _ _ _ Hcfx Hc) as (evs' & Hx' & _).
      exists (evs ++ evs'). by eapply Call_trans.
    - exists []. apply Call_refl. }
  destruct HI as (evs & Hs & Hw & Hl & Hb).
  exists evs. split; [by repeat split; try apply Hs |].
  split; [done |]. split; [| done].
  cbn. rewrite Hl. cbn. rewrite <- !app_assoc. reflexivity.
Qed.

Lemma invokeHandlers_body_spec (self : nat -> M U unit) call :
  chain_spec self -> call_spec call ->
  chain_spec (invokeHandlers_body self call).
Proof.
  intros Hself Hcall wid w w' Hcf H wr0 Hwr0.
  unfold invokeHandlers_body in H.
  bind_inv H as wr w1 Hm. apply getWrapper_Ok in Hm as [-> Hwr].
  rewrite Hwr0 in Hwr. inversion Hwr; subst wr; clear Hwr. rename wr0 into wr.
  bind_inv H as top w1 Hm. apply callable_Ok in Hm as [-> Htop].
  set (idx := length (contexts wr) - 1) in *.
  assert (Hlen : length (contexts wr) = S idx).
  { apply lookup_lt_Some in Htop. lia. }
  destruct (catchFree_wrapper _ _ _ Hcf Hwr0) as [Hinsts Horig].
  (* the client code of a handler keeps the chain relation *)
  assert (Hrun : forall (c : Code U unit unit), plain c -> forall w1 a w2,
            (exists evs, Chain wid idx w evs w1) ->
            runCode (fun _ => self wid) call c w1 = (Ok a, w2) ->
            exists evs, Chain wid idx w evs w2).
  { intros c Hc.
    apply (runCode_inv (fun x => exists evs, Chain wid idx w evs x));
      [| | | exact Hc].
    - intros u x [evs Hx]. exists evs. by apply Chain_client.
    - intros _ x x' [evs Hx] Hc'.
      assert (Hcfx : catchFree x)
        by (eapply catchFree_Stable; [by eapply Chain_Stable | exact Hcf]).
      destruct (Chain_depth _ _ _ _ _ Hx) as [Hd Hd'].
      assert (Hwx : exists wrx, wrappers x !! wid = Some wrx /\
                               length (contexts wrx) = S idx).
      { specialize (Hd wid). unfold depth in Hd, Hd'.
        destruct (wrappers x !! wid) as [wrx |] eqn:E.
        - exists wrx. split; [done |]. destruct (wrappers w !! wid); congruence.
        - destruct (wrappers w !! wid); congruence. }
      destruct Hwx as (wrx & Hwrx & Hlenx).
      destruct (Hself _ _ _ Hcfx Hc' _ Hwrx) as [evs' Hx'].
      rewrite Hlenx in Hx'. replace (S idx - 1) with idx in Hx' by lia.
      exists (evs ++ evs'). by eapply Chain_trans.
    - intros wid' t a x v' x' [evs Hx] Hc'.
      assert (Hcfx : catchFree x)
        by (eapply catchFree_Stable; [by eapply Chain_Stable | exact Hcf]).
      destruct (Hcall _ _ _ _ _ _ Hcfx Hc') as (evs' & Hx' & _).
      exists (evs ++ evs'). by eapply Chain_Call. }
  destruct (negb (c0 top =? 0)) eqn:E0; [| destruct (negb (c1 top =? 0)) eqn:E1].
  - (* an aggregate handler *)
    bind_inv H as x w1 Hm. apply updContext_Ok in Hm as (wr' & Hwr' & ->).
    rewrite Hwr0 in Hwr'. inversion Hwr'; subst wr'; clear Hwr'.
    rewrite Htop in H.
    bind_inv H as aggregate w1 Hm. apply getArray_Ok in Hm as [-> ->].
    bind_inv H as h w1 Hm. apply callable_Ok in Hm as [-> Hh].
    bind_inv H as y w1 Hm. cbn in Hm. inversion Hm; subst w1; clear Hm.
    eapply Hrun; [exact (catchFree_array _ _ _ _ Hcf Hh (name wr)) | | exact H].
    pose proof (Chain_upd wid idx w wr top (set_c0 (c0 top - 1))
                  Hwr0 Hlen Htop eq_refl eq_refl eq_refl) as HC.
    apply (Chain_emit_handler _ _ _ _ _ Aggregate (c0 top - 1) (hid h)) in HC.
    eexists. exact HC.
  - (* an instance handler *)
    bind_inv H as x w1 Hm. apply updContext_Ok in Hm as (wr' & Hwr' & ->).
    rewrite Hwr0 in Hwr'. inversion Hwr'; subst wr'; clear Hwr'.
    rewrite Htop in H.
    bind_inv H as wr1 w1 Hm. apply getWrapper_Ok in Hm as [-> Hwr1].
    cbn in Hwr1.
    rewrite list_lookup_insert_eq in Hwr1 by (by eapply lookup_lt_Some).
    inversion Hwr1; subst wr1; clear Hwr1.
    bind_inv H as h w1 Hm. apply callable_Ok in Hm as [-> Hh].
    bind_inv H as y w1 Hm. cbn in Hm. inversion Hm; subst w1; clear Hm.
    cbn [handlers set_contexts] in Hh. rewrite Forall_lookup in Hinsts.
    eapply Hrun; [exact (Hinsts _ _ Hh (name wr)) | | exact H].
    pose proof (Chain_upd wid idx w wr top (set_c1 (c1 top - 1))
                  Hwr0 Hlen Htop eq_refl eq_refl eq_refl) as HC.
    apply (Chain_emit_handler _ _ _ _ _ Instance (c1 top - 1) (hid h)) in HC.
    eexists. exact HC.
  - (* the original function *)
    bind_inv H as a w1 Hm.
    apply applyOriginal_Ok in Hm as (evs & Hs & Hw & Hl & Hb);
      [| done | done | apply Horig].
    apply updContext_Ok in H as (wr' & Hwr' & ->).
    rewrite Hw, Hwr0 in Hwr'. inversion Hwr'; subst wr'; clear Hwr'.
    rewrite Htop.
    exists (EvOriginal wid (Some idx) (c2 top) (c3 top)
              :: evs ++ [EvReturn wid (Some idx) (c2 top) (c3 top) a]).
    split; [by repeat split; try apply Hs |].
    split; [done |].
    split.
    { constructor.
      - intros x k Hx. cbn in Hx. inversion Hx; subst.
        unfold chainBound. by rewrite decide_True.
      - apply scoped_app.
        + eapply scoped_mono; [| exact Hb]. intros x. apply chainBound_le.
          unfold depth. by rewrite Hwr0.
        + constructor; [| constructor]. intros x k Hx. cbn in Hx.
          inversion Hx; subst. unfold chainBound. by rewrite decide_True. }
    exists wr, top, (set_c4 (Returned a) top).
    repeat split; try done; try (cbn; congruence).
    change (EvOriginal wid (Some idx) (c2 top) (c3 top)
              :: evs ++ [EvReturn wid (Some idx) (c2 top) (c3 top) a])
      with ((EvOriginal wid (Some idx) (c2 top) (c3 top) :: evs)
              ++ [EvReturn wid (Some idx) (c2 top) (c3 top) a]).
    rewrite lastReturn_app. cbn. rewrite decide_True by done. done.
Qed.

Lemma insert_last {A} (l : list A) (x y : A) :
  <[length l := y]> (l ++ [x]) = l ++ [y].
Proof.
  rewrite <- (Nat.add_0_r (length l)). by rewrite insert_app_r.
Qed.

Lemma instrumentedCallback_body_spec (ih : nat -> M U unit) call :
  chain_spec ih -> call_spec call ->
  call_spec (instrumentedCallback_body ih call).
Proof.
  intros Hih Hcall wid this args w v w' Hcf H.
  unfold instrumentedCallback_body in H.
  bind_inv H as wr w1 Hm. apply getWrapper_Ok in Hm as [-> Hwr].
  destruct (catchFree_wrapper _ _ _ Hcf Hwr) as [Hinsts Horig].
  bind_inv H as aggregate w1 Hm. apply getArray_Ok in Hm as [-> ->].
  destruct ((length (array w (aggregateHandlers wr)) =? 0)
            && (length (handlers wr) =? 0)).
  - (* fast path *)
    apply applyOriginal_Ok in H as (evs & Hs & Hw & Hl & Hb);
      [| done | done | apply Horig].
    exists (EvOriginal wid None this args :: evs ++ [EvReturn wid None this args v]).
    split.
    + split; [done |]. split; [done |]. split; [done |].
      constructor; [intros x k Hx; discriminate |].
      apply scoped_app; [done |].
      constructor; [intros x k Hx; discriminate | constructor].
    + exists None. split; [by left |].
      change (EvOriginal wid None this args
                :: evs ++ [EvReturn wid None this args v])
        with ((EvOriginal wid None this args :: evs)
                ++ [EvReturn wid None this args v]).
      rewrite lastReturn_app. cbn. by rewrite decide_True.
  - (* a context is pushed, the chain runs, the context is popped *)
    set (ctx := mkContext (length (array w (aggregateHandlers wr)))
                  (length (handlers wr)) this args NOT_INVOKED) in *.
    assert (Hlt : wid < length (wrappers w)) by (by eapply lookup_lt_Some).
    bind_inv H as x w1 Hm. apply pushContext_Ok in Hm as (wr' & Hwr' & ->).
    rewrite Hwr in Hwr'. inversion Hwr'; subst wr'; clear Hwr' x.
    bind_inv H as x w2 Hm. destruct x.
    assert (Hcf1 : catchFree
              (set_wrappers
                 (<[wid := set_contexts (contexts wr ++ [ctx]) wr]> (wrappers w)) w)).
    { eapply catchFree_Stable; [| exact Hcf]. by apply Stable_contexts. }
    destruct (Hih _ _ _ Hcf1 Hm (set_contexts (contexts wr ++ [ctx]) wr))
      as [evs HC]; [cbn; by apply list_lookup_insert_eq |].
    clear Hm.
    cbn in HC. rewrite length_app in HC. cbn in HC.
    replace (length (contexts wr) + 1 - 1) with (length (contexts wr)) in HC
      by lia.
    destruct HC as (Hs & Hl & Hb & wr1 & top & top' & Hwr1 & Hlen & Htop &
                    Hw2 & H2 & H3 & H4).
    cbn in Hwr1, Hl. rewrite list_lookup_insert_eq in Hwr1 by done.
    inversion Hwr1; subst wr1; clear Hwr1. cbn in Htop, Hw2, Hlen.
    rewrite list_lookup_middle in Htop by done.
    inversion Htop; subst top; clear Htop.
    rewrite insert_last, list_insert_insert_eq in Hw2.
    bind_inv H as context w3 Hm.
    apply popContext_Ok in Hm as (wr2 & Hwr2 & Hctx & ->).
    rewrite Hw2, list_lookup_insert_eq in Hwr2 by done.
    inversion Hwr2; subst wr2; clear Hwr2. cbn in Hctx, H.
    rewrite last_snoc in Hctx. inversion Hctx; subst context; clear Hctx.
    rewrite removelast_last in H.
    destruct (c4 top') as [| v'] eqn:E4; [discriminate |].
    cbn in H. inversion H; subst v' w'; clear H.
    exists evs. split.
    + split; [by repeat split; try apply Hs |].
      split.
      { cbn. rewrite Hw2, list_insert_insert_eq.
        rewrite <- (list_insert_id _ _ _ Hwr) at 2. by destruct wr. }
      split; [done |].
      eapply scoped_mono; [| exact Hb]. intros y. unfold chainBound, depth.
      cbn. case_decide as Hy.
      * subst y. by rewrite Hwr.
      * by rewrite list_lookup_insert_ne.
    + exists (Some (length (contexts wr))).
      split; [right; unfold depth; by rewrite Hwr |].
      destruct (lastReturn wid (Some (length (contexts wr))) evs)
        as [[[t a] v0] |].
      * destruct H4 as (? & ? & ?). cbn in *. congruence.
      * destruct H4 as [H4 _]. cbn in H4. congruence.
Qed.

(** The guarantees hold at every recursion budget. *)
Lemma chain_invariant (fuel : nat) :
  chain_spec (@invokeHandlers U fuel) /\ call_spec (@instrumentedCallback U fuel).
Proof.
  induction fuel as [| n [IH1 IH2]].
  - split.
    + intros wid w w' _ H. discriminate.
    + intros wid this args w v w' _ H. discriminate.
  - split.
    + intros wid w w' Hcf H. cbn in H.
      by eapply invokeHandlers_body_spec.
    + intros wid this args w v w' Hcf H. cbn in H.
      by eapply instrumentedCallback_body_spec.
Qed.

End ChainInvariant.

(** ** Well-behaved client code *)

Section WellBehaved.
Context {U : Type}.
Implicit Types (w : World U) (wr : Wrapper U) (evs : list Event).

Lemma set_client_id w : set_client (client w) w = w.
Proof. by destruct w. Qed.

(** Quiet code returns; its result and the client state it leaves
    depend on the client state only, and nothing else changes. *)
Lemma Quiet_run {P A} (c : Code U P A) callback call :
  Quiet c ->
  forall u0, exists a u, forall w,
    client w = u0 -> runCode callback call c w = (Ok a, set_client u w).
Proof.
  induction 1 as [a | f k Hk IH | k Hk IH]; intros u0; cbn.
  - exists a, u0. intros w <-. by rewrite set_client_id.
  - destruct (IH (f u0)) as (a & u & Hrun). exists a, u. intros w <-.
    by rewrite (Hrun (set_client (f (client w)) w)).
  - destruct (IH u0 u0) as (a & u & Hrun). exists a, u. intros w <-.
    by apply Hrun.
Qed.

(** A handler that proceeds once returns when its continuation does,
    and keeps what the continuation established, provided the client
    state does not matter to it. *)
Lemma Once_run (c : Code U unit unit) callback call (R : World U -> Prop) :
  Once c ->
  (forall u w1, R w1 -> R (set_client u w1)) ->
  forall w,
    (forall u, exists w1, callback tt (set_client u w) = (Ok tt, w1) /\ R w1) ->
    exists w2, runCode callback call c w = (Ok tt, w2) /\ R w2.
Proof.
  intros Hc HR. induction Hc as [f k Hk IH | k Hk IH | [] k Hk]; intros w Hcb; cbn.
  - apply IH. intros u. apply (Hcb u).
  - apply IH. done.
  - destruct (Hcb (client w)) as (w1 & Hw1 & HR1). rewrite set_client_id in Hw1.
    rewrite (bind_step _ _ _ _ _ Hw1).
    destruct (Quiet_run k callback call Hk (client w1)) as ([] & u & Hk1).
    rewrite (Hk1 w1 eq_refl).
    eexists. split; [done |]. by apply HR.
Qed.



Lemma trace_app w w' evs : log w' = log w ++ evs -> trace w w' = evs.
Proof. intros H. unfold trace. by rewrite H, drop_app_length. Qed.

End WellBehaved.

(** ** The chain of well-behaved handlers *)

Section OrderedChain.
Context {U : Type}.
Variables (wid : nat) (nm : string) (f : Fn U) (r : nat).
Variables (aggs insts : list (Handler U)).
Hypothesis aggs_once : Forall (fun h => Once (hbody h nm)) aggs.
Hypothesis insts_once : Forall (fun h => Once (hbody h nm)) insts.
Hypothesis f_quiet : forall this args, Quiet (f this args).
Implicit Types (w : World U) (wr : Wrapper U) (evs : list Event).

(** From counters [(i, j)] the chain enters the aggregate handlers
    [i-1 .. 0], then the instance handlers [j-1 .. 0], then the
    original function, and unwinds. *)
Lemma ordered_chain fuel : forall w idx top,
  inFlight wid nm f r aggs insts w idx top ->
  c0 top <= length aggs -> c1 top <= length insts ->
  c0 top + c1 top < fuel ->
  exists w' v,
    invokeHandlers fuel wid w = (Ok tt, w') /\
    log w' =
      log w ++ countdown wid idx Aggregate aggs (c0 top)
            ++ countdown wid idx Instance insts (c1 top)
            ++ [EvOriginal wid (Some idx) (c2 top) (c3 top);
                EvReturn wid (Some idx) (c2 top) (c3 top) v] /\
    topSlot w' wid = Some (Returned v).
Proof.
  induction fuel as [| n IH]; intros w idx top Hin H0 H1 Hfuel; [lia |].
  destruct Hin as (wr & Hwr & Hnm & Hf & Hr & Haggs & Hinsts & Hlen & Htop).
  assert (Hlt : wid < length (wrappers w)) by (by eapply lookup_lt_Some).
  assert (Hidx : length (contexts wr) - 1 = idx) by lia.
  cbn [invokeHandlers]. unfold invokeHandlers_body.
  rewrite (bind_step _ _ w wr w) by (unfold getWrapper; by rewrite Hwr).
  rewrite Hidx, Htop. cbn [callable].
  rewrite (bind_step _ _ w top w) by done.
  destruct (c0 top) as [| i] eqn:E0; [destruct (c1 top) as [| j] eqn:E1 |].
  - (* the original function *)
    cbn [Nat.eqb negb]. unfold applyOriginal.
    destruct (Quiet_run (originalFunction wr (c2 top) (c3 top))
                noCallback (instrumentedCallback n)
                ltac:(rewrite Hf; apply f_quiet) (client w))
      as (v & u & Hrun).
    specialize (Hrun (set_log (log w ++ [EvOriginal wid (Some idx) (c2 top) (c3 top)]) w)
                  eq_refl).
    eexists _, v. split; [| split].
    + unfold bind at 1. unfold bind at 1. cbn [emit]. unfold bind at 1.
      rewrite Hrun. unfold bind at 1. cbn [emit ret].
      unfold updContext, bind, getWrapper. cbn. rewrite Hwr, Htop. reflexivity.
    + cbn. by rewrite <- app_assoc.
    + unfold topSlot. cbn. rewrite list_lookup_insert_eq by done. cbn.
      rewrite last_lookup, length_insert, Hlen. cbn.
      rewrite list_lookup_insert_eq by lia. done.
  - (* instance handler [j] *)
    cbn [Nat.eqb negb]. replace (S j - 1) with j by lia.
    set (w1 := set_wrappers
                 (<[wid := set_contexts (<[idx := set_c1 j top]> (contexts wr)) wr]>
                    (wrappers w)) w).
    rewrite (bind_step _ _ w tt w1)
      by (unfold updContext, bind, getWrapper; by rewrite Hwr, Htop).
    assert (Hwr1 : wrappers w1 !! wid =
                   Some (set_contexts (<[idx := set_c1 j top]> (contexts wr)) wr))
      by (cbn; by apply list_lookup_insert_eq).
    rewrite (bind_step _ _ w1 _ w1) by (unfold getWrapper; by rewrite Hwr1).
    cbn [handlers set_contexts]. rewrite Hinsts.
    destruct (lookup_lt_is_Some_2 insts j) as [h Hh]; [lia |].
    rewrite Hh. cbn [callable]. rewrite (bind_step _ _ w1 h w1) by done.
    set (w2 := set_log (log w1 ++ [EvHandler wid idx Instance j (hid h)]) w1).
    rewrite (bind_step _ _ w1 tt w2) by done.
    rewrite Hnm.
    destruct (Once_run (hbody h nm) (fun _ => invokeHandlers n wid)
                (instrumentedCallback n)
                (fun x => exists v, log x =
                   log w2 ++ countdown wid idx Instance insts j
                     ++ [EvOriginal wid (Some idx) (c2 top) (c3 top);
                         EvReturn wid (Some idx) (c2 top) (c3 top) v] /\
                   topSlot x wid = Some (Returned v)))
      with (w := w2) as (w3 & Hw3 & v & Hl3 & Ht3).
    + rewrite Forall_forall in insts_once. apply insts_once.
      apply list_elem_of_lookup. eauto.
    + intros u x (v & Hx & Ht). by exists v.
    + intros u.
      destruct (IH (set_client u w2) idx (set_c1 j top))
        as (w3 & v & Hw3 & Hl3 & Ht3).
      * exists (set_contexts (<[idx := set_c1 j top]> (contexts wr)) wr).
        split; [exact Hwr1 |]. split; [exact Hnm |]. split; [exact Hf |].
        split; [exact Hr |]. split; [exact Haggs |]. split; [exact Hinsts |].
        split.
        -- change (length (<[idx := set_c1 j top]> (contexts wr)) = S idx).
           by rewrite length_insert.
        -- change (<[idx := set_c1 j top]> (contexts wr) !! idx = Some (set_c1 j top)).
           apply list_lookup_insert_eq. lia.
      * cbn. lia.
      * cbn. lia.
      * cbn. lia.
      * exists w3. split; [done |]. exists v. split; [| done].
        rewrite Hl3. cbn. by rewrite E0.
    + exists w3, v. split; [done |]. split; [| done]. rewrite Hl3. cbn [countdown].
      rewrite Hh. cbn. by rewrite <- !app_assoc.
  - (* aggregate handler [i] *)
    cbn [Nat.eqb negb]. replace (S i - 1) with i by lia.
    set (w1 := set_wrappers
                 (<[wid := set_contexts (<[idx := set_c0 i top]> (contexts wr)) wr]>
                    (wrappers w)) w).
    rewrite (bind_step _ _ w tt w1)
      by (unfold updContext, bind, getWrapper; by rewrite Hwr, Htop).
    assert (Hwr1 : wrappers w1 !! wid =
                   Some (set_contexts (<[idx := set_c0 i top]> (contexts wr)) wr))
      by (cbn; by apply list_lookup_insert_eq).
    rewrite (bind_step _ _ w1 (array w1 (aggregateHandlers wr)) w1) by done.
    change (array w1 (aggregateHandlers wr)) with (array w (aggregateHandlers wr)).
    rewrite Hr, Haggs.
    destruct (lookup_lt_is_Some_2 aggs i) as [h Hh]; [lia |].
    rewrite Hh. cbn [callable]. rewrite (bind_step _ _ w1 h w1) by done.
    set (w2 := set_log (log w1 ++ [EvHandler wid idx Aggregate i (hid h)]) w1).
    rewrite (bind_step _ _ w1 tt w2) by done.
    rewrite Hnm.
    destruct (Once_run (hbody h nm) (fun _ => invokeHandlers n wid)
                (instrumentedCallback n)
                (fun x => exists v, log x =
                   log w2 ++ countdown wid idx Aggregate aggs i
                     ++ countdown wid idx Instance insts (c1 top)
                     ++ [EvOriginal wid (Some idx) (c2 top) (c3 top);
                         EvReturn wid (Some idx) (c2 top) (c3 top) v] /\
                   topSlot x wid = Some (Returned v)))
      with (w := w2) as (w3 & Hw3 & v & Hl3 & Ht3).
    + rewrite Forall_forall in aggs_once. apply aggs_once.
      apply list_elem_of_lookup. eauto.
    + intros u x (v & Hx & Ht). by exists v.
    + intros u.
      destruct (IH (set_client u w2) idx (set_c0 i top))
        as (w3 & v & Hw3 & Hl3 & Ht3).
      * exists (set_contexts (<[idx := set_c0 i top]> (contexts wr)) wr).
        split; [exact Hwr1 |]. split; [exact Hnm |]. split; [exact Hf |].
        split; [exact Hr |]. split; [exact Haggs |]. split; [exact Hinsts |].
        split.
        -- change (length (<[idx := set_c0 i top]> (contexts wr)) = S idx).
           by rewrite length_insert.
        -- change (<[idx := set_c0 i top]> (contexts wr) !! idx = Some (set_c0 i top)).
           apply list_lookup_insert_eq. lia.
      * cbn. lia.
      * cbn. lia.
      * cbn. lia.
      * exists w3. split; [done |]. exists v. split; [| done]. by rewrite Hl3.
    + exists w3, v. split; [done |]. split; [| done]. rewrite Hl3. cbn [countdown].
      rewrite Hh. cbn. by rewrite <- !app_assoc.
Qed.

End OrderedChain.

(** ** What no call changes, however it ends *)

Section Stability.
Context {U : Type}.
Implicit Types (w : World U) (wr : Wrapper U).

Lemma stable_ret {A} (a : A) : stable (@ret U A a).
Proof. intros w o w' H. inversion H. apply Stable_refl. Qed.

Lemma stable_throw {A} e : stable (@throw U A e).
Proof. intros w o w' H. inversion H. apply Stable_refl. Qed.

Lemma stable_diverge {A} : stable (@diverge U A).
Proof. intros w o w' H. inversion H. apply Stable_refl. Qed.

Lemma stable_bind {A B} (m : M U A) (k : A -> M U B) :
  stable m -> (forall a, stable (k a)) -> stable (bind m k).
Proof.
  intros Hm Hk w o w' H. unfold bind in H.
  destruct (m w) as [[a | e |] w1] eqn:E.
  - eapply Stable_trans; [by eapply Hm | by eapply Hk].
  - inversion H; subst. by eapply Hm.
  - inversion H; subst. by eapply Hm.
Qed.

Lemma stable_tryCatch {A B} (m : M U A) (k : A -> M U B) (h : Value -> M U B) :
  stable m -> (forall a, stable (k a)) -> (forall e, stable (h e)) ->
  stable (tryCatch m k h).
Proof.
  intros Hm Hk Hh w o w' H. unfold tryCatch in H.
  destruct (m w) as [[a | e |] w1] eqn:E.
  - eapply Stable_trans; [by eapply Hm | by eapply Hk].
  - eapply Stable_trans; [by eapply Hm | by eapply Hh].
  - inversion H; subst. by eapply Hm.
Qed.

Lemma stable_emit e : stable (@emit U e).
Proof. intros w o w' H. inversion H. by repeat split. Qed.

Lemma stable_liftClient {A} (c : Client U A) : stable (liftClient c).
Proof.
  intros w o w' H. unfold liftClient in H.
  destruct (c (client w)) as [o1 u]. inversion H. by repeat split.
Qed.

Lemma stable_getWrapper wid : stable (@getWrapper U wid).
Proof.
  intros w o w' H. unfold getWrapper in H.
  destruct (wrappers w !! wid); inversion H; apply Stable_refl.
Qed.

Lemma stable_getArray r : stable (@getArray U r).
Proof. intros w o w' H. inversion H. apply Stable_refl. Qed.

Lemma stable_callable {A} (o : option A) : stable (@callable U A o).
Proof. destruct o; [apply stable_ret | apply stable_throw]. Qed.

Lemma stable_updContext wid idx f : stable (@updContext U wid idx f).
Proof.
  intros w o w' H. unfold updContext, bind, getWrapper in H.
  destruct (wrappers w !! wid) as [wr |] eqn:E.
  - destruct (contexts wr !! idx); inversion H.
    + by apply Stable_contexts.
    + apply Stable_refl.
  - inversion H. apply Stable_refl.
Qed.

Lemma stable_pushContext wid c : stable (@pushContext U wid c).
Proof.
  intros w o w' H. unfold pushContext, bind, getWrapper in H.
  destruct (wrappers w !! wid) as [wr |] eqn:E; inversion H.
  - by apply Stable_contexts.
  - apply Stable_refl.
Qed.

Lemma stable_popContext wid : stable (@popContext U wid).
Proof.
  intros w o w' H. unfold popContext, bind, getWrapper in H.
  destruct (wrappers w !! wid) as [wr |] eqn:E.
  - destruct (last (contexts wr)); cbn in H; inversion H.
    + by apply Stable_contexts.
    + apply Stable_refl.
  - inversion H. apply Stable_refl.
Qed.

Lemma stable_runCode {P A} (callback : P -> M U unit)
    (call : nat -> Value -> list Value -> M U Value) (c : Code U P A) :
  (forall p, stable (callback p)) ->
  (forall wid t a, stable (call wid t a)) ->
  stable (runCode callback call c).
Proof.
  intros Hcb Hcall.
  induction c as [a0 | f k IH | k IH | e | wid t a0 k IH | p k IH
                  | wid t a0 k IH | p k IH]; cbn.
  - apply stable_ret.
  - intros w o w' H. apply IH in H.
    eapply Stable_trans; [| exact H]. by repeat split.
  - intros w o w' H. by apply (IH (client w)) in H.
  - apply stable_throw.
  - apply stable_bind; [apply Hcall | done].
  - apply stable_bind; [apply Hcb | done].
  - apply stable_tryCatch; [apply Hcall | done | done].
  - apply stable_tryCatch; [apply Hcb | done | done].
Qed.

Lemma stable_applyOriginal call wid fr f this args :
  (forall wid t a, stable (call wid t a)) ->
  stable (@applyOriginal U call wid fr f this args).
Proof.
  intros Hcall. unfold applyOriginal.
  apply stable_bind; [apply stable_emit | intros _].
  apply stable_bind; [apply stable_runCode; [intros [] | done] | intros v].
  apply stable_bind; [apply stable_emit | intros _]. apply stable_ret.
Qed.

Lemma stable_invocation (fuel : nat) :
  (forall wid, stable (@invokeHandlers U fuel wid)) /\
  (forall wid this args, stable (@instrumentedCallback U fuel wid this args)).
Proof.
  induction fuel as [| n [IH1 IH2]]; [split; intros; apply stable_diverge |].
  split.
  - intros wid. cbn [invokeHandlers]. unfold invokeHandlers_body.
    apply stable_bind; [apply stable_getWrapper | intros wr].
    apply stable_bind; [apply stable_callable | intros top].
    destruct (negb (c0 top =? 0)); [| destruct (negb (c1 top =? 0))].
    + apply stable_bind; [apply stable_updContext | intros _].
      apply stable_bind; [apply stable_getArray | intros aggregate].
      apply stable_bind; [apply stable_callable | intros h].
      apply stable_bind; [apply stable_emit | intros _].
      by apply stable_runCode.
    + apply stable_bind; [apply stable_updContext | intros _].
      apply stable_bind; [apply stable_getWrapper | intros wr1].
      apply stable_bind; [apply stable_callable | intros h].
      apply stable_bind; [apply stable_emit | intros _].
      by apply stable_runCode.
    + apply stable_bind; [by apply stable_applyOriginal | intros v].
      apply stable_updContext.
  - intros wid this args. cbn [instrumentedCallback].
    unfold instrumentedCallback_body.
    apply stable_bind; [apply stable_getWrapper | intros wr].
    apply stable_bind; [apply stable_getArray | intros aggregate].
    destruct ((length aggregate =? 0) && (length (handlers wr) =? 0)).
    + by apply stable_applyOriginal.
    + apply stable_bind; [apply stable_pushContext | intros _].
      apply stable_bind; [apply IH1 | intros _].
      apply stable_bind; [apply stable_popContext | intros context].
      destruct (c4 context); [apply stable_throw | apply stable_ret].
Qed.

Lemma stable_forEach {A} (l : list A) (f : A -> M U unit) :
  (forall x, stable (f x)) -> stable (forEach l f).
Proof.
  intros Hf. induction l as [| x l IH]; cbn; [apply stable_ret |].
  apply stable_bind; [apply Hf | done].
Qed.

Lemma stable_profileLoop name state hs n acc :
  stable (@profileLoop U name state hs n acc).
Proof.
  revert acc. induction n as [| ii IH]; intros acc; cbn; [apply stable_ret |].
  apply stable_bind; [apply stable_callable | intros h].
  apply stable_bind; [apply stable_emit | intros _].
  apply stable_bind; [apply stable_liftClient | intros s]. apply IH.
Qed.

Lemma stable_profile name state : stable (@profile U name state).
Proof.
  intros w o w' H. unfold profile in H.
  destruct (enableProfile w); [| inversion H; apply Stable_refl].
  revert H. apply stable_bind.
  { intros x o1 x' H. inversion H; subst. apply Stable_refl. }
  intros [|]; [| apply stable_ret].
  apply stable_bind.
  { intros x o1 x' H. unfold getProfile in H. eapply stable_callable, H. }
  intros hs. apply stable_bind; [apply stable_profileLoop | intros s].
  apply stable_ret.
Qed.

Lemma stable_stop s : stable (@stop U s).
Proof.
  destruct s as [| [stops |]]; cbn; try apply stable_ret.
  apply stable_forEach. intros x. apply stable_liftClient.
Qed.

End Stability.

(** ** Objects used as maps *)

Section JsMaps.
Context {A : Type}.
Implicit Types (m : JsMap A).



(** What was assigned is what is read back, under every name. *)
Lemma getProperty_setProperty m n a : getProperty (setProperty m n a) n = Some a.
Proof.
  unfold getProperty, setProperty.
  destruct (own m !! n) eqn:E; [cbn; by rewrite lookup_insert_eq |].
  destruct (decide (n = "__proto__")) as [Hn | Hn]; cbn [own proto].
  - rewrite E. by destruct (decide (n = "__proto__")).
  - by rewrite lookup_insert_eq.
Qed.

(** The keys after an assignment to a name that is no key. *)
Lemma own_setProperty m n a :
  own m !! n = None ->
  own (setProperty m n a) =
    if decide (n = "__proto__") then own m else <[n := a]> (own m).
Proof. unfold setProperty. intros ->. by case_decide. Qed.

End JsMaps.

(** ** The keys of the registries *)

Section Keys.

(** Keys are never removed, and only the names given become keys. *)
Lemma keysAfter_bounds (ks : gset string) ns :
  ks ⊆ keysAfter ks ns /\ keysAfter ks ns ⊆ ks ∪ list_to_set ns.
Proof.
  revert ks. induction ns as [| n ns IH]; intros ks; cbn.
  - split; [done |]. apply union_subseteq_l.
  - case_decide; [split; [done | apply union_subseteq_l] |].
    case_decide as Hn.
    + destruct (IH ks) as [H1 H2]. split; [done |].
      etrans; [exact H2 |]. apply union_mono_l, union_subseteq_r.
    + destruct (IH (ks ∪ {[n]})) as [H1 H2].
      split; [etrans; [apply union_subseteq_l | exact H1] |].
      etrans; [exact H2 |]. by rewrite (assoc_L (∪)).
Qed.

Lemma keysAfter_never_proto (ks : gset string) ns :
  "__proto__" ∉ ks -> "__proto__" ∉ keysAfter ks ns.
Proof.
  revert ks. induction ns as [| n ns IH]; intros ks Hks; cbn; [done |].
  case_decide; [done |]. case_decide as Hn; apply IH; [done |].
  rewrite not_elem_of_union, not_elem_of_singleton. split; [done | congruence].
Qed.

End Keys.

(** ** The aggregate registry and the arrays the wrappers hold *)

Section RegistryInvariant.
Context {U : Type}.
Implicit Types (w : World U) (wr : Wrapper U).

(** The outcomes of [aggregateArray]: a failed check, the array the
    registry holds, or a new array. *)
Lemma aggregateArray_cases n w :
  aggregateArray n w =
    match own (aggregateHandlersByName w) !! "hasOwnProperty" with
    | Some _ => (Thrown typeError, w)
    | None =>
        match own (aggregateHandlersByName w) !! n with
        | Some r => (Ok r, w)
        | None =>
            (Ok (length (arrays w)),
             set_aggregate
               (setProperty (aggregateHandlersByName w) n (length (arrays w)))
               (arrays w ++ [[]]) w)
        end
    end.
Proof.
  unfold aggregateArray, bind, hasAggregate, hasOwnProperty.
  destruct (own (aggregateHandlersByName w) !! "hasOwnProperty"); [done |].
  destruct (own (aggregateHandlersByName w) !! n) as [r |] eqn:E.
  - rewrite bool_decide_eq_true_2 by eauto. cbn.
    unfold getAggregate, getProperty. by rewrite E.
  - rewrite bool_decide_eq_false_2 by (by intros [? ?]). cbn.
    unfold getAggregate. cbn. by rewrite getProperty_setProperty.
Qed.

Lemma aggregateArray_shadowed n w :
  ~ intact (aggregateHandlersByName w) ->
  aggregateArray n w = (Thrown typeError, w).
Proof.
  unfold intact. rewrite aggregateArray_cases.
  by destruct (own (aggregateHandlersByName w) !! "hasOwnProperty").
Qed.

(** What [aggregateArray] leaves alone. *)
Lemma aggregateArray_frame n w o w1 :
  aggregateArray n w = (o, w1) ->
  profileHandlersByName w1 = profileHandlersByName w /\
  enableProfile w1 = enableProfile w /\
  wrappers w1 = wrappers w /\
  client w1 = client w /\
  log w1 = log w /\
  o <> OutOfFuel /\
  (forall e, o = Thrown e -> w1 = w).
Proof.
  rewrite aggregateArray_cases.
  destruct (own (aggregateHandlersByName w) !! "hasOwnProperty");
    [by intros [= <- <-] |].
  destruct (own (aggregateHandlersByName w) !! n);
    by intros [= <- <-].
Qed.

Lemma keys_aggregateArray n w :
  aggregateKeys (snd (aggregateArray n w)) = keysAfter (aggregateKeys w) [n].
Proof.
  rewrite aggregateArray_cases. unfold aggregateKeys. cbn [keysAfter].
  destruct (own (aggregateHandlersByName w) !! "hasOwnProperty") as [r0 |] eqn:E0.
  { rewrite decide_True; [done |]. by eapply elem_of_dom_2. }
  rewrite decide_False by (by apply not_elem_of_dom).
  destruct (own (aggregateHandlersByName w) !! n) as [r |] eqn:E; cbn.
  - case_decide; [done |]. apply elem_of_dom_2 in E.
    apply set_eq. intros x. rewrite elem_of_union, elem_of_singleton.
    split; [auto | intros [? | ->]; auto].
  - rewrite own_setProperty by done. case_decide; [done |].
    rewrite dom_insert_L. apply union_comm_L.
Qed.

(** [sound], wrapper by wrapper. *)
Lemma sound_wrapper w i wr :
  sound w -> wrappers w !! i = Some wr ->
  match own (aggregateHandlersByName w) !! name wr with
  | Some r => aggregateHandlers wr = r
  | None =>
      array w (aggregateHandlers wr) = [] /\
      detached (own (aggregateHandlersByName w)) (length (arrays w)) wr
  end.
Proof.
  intros (Hwf & _ & _ & Hd) Hwr. unfold wf in Hwf.
  rewrite Forall_lookup in Hwf, Hd.
  specialize (Hwf _ _ Hwr). specialize (Hd _ _ Hwr). cbn in Hwf, Hd.
  destruct (own (aggregateHandlersByName w) !! name wr); [done |]. auto.
Qed.

Lemma sound_intro w :
  refsOk (own (aggregateHandlersByName w)) (length (arrays w)) ->
  own (aggregateHandlersByName w) !! "__proto__" = None ->
  (forall i wr, wrappers w !! i = Some wr ->
     match own (aggregateHandlersByName w) !! name wr with
     | Some r => aggregateHandlers wr = r
     | None =>
         array w (aggregateHandlers wr) = [] /\
         detached (own (aggregateHandlersByName w)) (length (arrays w)) wr
     end) ->
  sound w.
Proof.
  intros Hok Hp H. split; [| split; [done | split; [done |]]].
  - unfold wf. rewrite Forall_lookup. intros i wr Hwr.
    specialize (H _ _ Hwr). cbn.
    destruct (own (aggregateHandlersByName w) !! name wr); [done | apply H].
  - rewrite Forall_lookup. intros i wr Hwr E.
    specialize (H _ _ Hwr). rewrite E in H. apply H.
Qed.

Lemma sound_refs w : sound w ->
  refsOk (own (aggregateHandlersByName w)) (length (arrays w)).
Proof. by intros (_ & H & _). Qed.

Lemma sound_proto w : sound w ->
  own (aggregateHandlersByName w) !! "__proto__" = None.
Proof. by intros (_ & _ & H & _). Qed.

Lemma sound_initial (__DEV__ : bool) (u : U) : sound (initial __DEV__ u).
Proof.
  apply sound_intro; cbn; [| done | by intros i wr].
  split; intros *; by rewrite lookup_empty.
Qed.

Lemma sound_Stable w w' : Stable w w' -> sound w -> sound w'.
Proof.
  intros [(Ha & Hr & _) Hw] Hs. apply sound_intro.
  - rewrite Ha, Hr. by apply sound_refs.
  - rewrite Ha. by apply sound_proto.
  - intros i wr' Hwr'.
    assert (Hl : (set_contexts [] <$> wrappers w) !! i = Some (set_contexts [] wr')).
    { rewrite <- Hw, list_lookup_fmap, Hwr'. done. }
    rewrite list_lookup_fmap in Hl.
    destruct (wrappers w !! i) as [wr |] eqn:Hwr; [| done].
    pose proof (sound_wrapper _ _ _ Hs Hwr) as H.
    rewrite Ha. unfold array, detached in *. rewrite Hr.
    destruct wr, wr'. cbn in *. by inversion Hl; subst.
Qed.

Lemma refsOk_fresh (m : gmap string nat) len n :
  m !! n = None -> refsOk m len -> refsOk (<[n := len]> m) (S len).
Proof.
  intros Hn [Hv Hd]. split.
  - intros n' r. rewrite lookup_insert. case_decide.
    + intros [= <-]. lia.
    + intros H'. apply Hv in H'. lia.
  - intros n1 n2 r. rewrite !lookup_insert.
    repeat case_decide; subst; try done.
    + intros [= <-] H2. apply Hv in H2. lia.
    + intros H1 [= <-]. apply Hv in H1. lia.
    + apply Hd.
Qed.

Lemma refsOk_grow (m : gmap string nat) len : refsOk m len -> refsOk m (S len).
Proof.
  intros [Hv Hd]. split; [| done]. intros n r H. apply Hv in H. lia.
Qed.

Lemma array_grow w r m l :
  r < length (arrays w) ->
  array (set_aggregate m (arrays w ++ l) w) r = array w r.
Proof. intros H. unfold array. cbn. by rewrite lookup_app_l. Qed.

Lemma array_fresh w m :
  array (set_aggregate m (arrays w ++ [[]]) w) (length (arrays w)) = [].
Proof. unfold array. cbn. by rewrite list_lookup_middle. Qed.

(** A new array, assigned to a name that is no key, keeps the
    discipline. *)
Lemma sound_newAggregate n w :
  sound w -> own (aggregateHandlersByName w) !! n = None ->
  sound (set_aggregate
           (setProperty (aggregateHandlersByName w) n (length (arrays w)))
           (arrays w ++ [[]]) w).
Proof.
  intros Hs Hn. pose proof (sound_refs _ Hs) as Hok.
  pose proof (sound_proto _ Hs) as Hp.
  assert (Hwrap : forall i wr, wrappers w !! i = Some wr ->
            name wr <> n \/ n = "__proto__").
  { intros i wr Hwr. destruct (decide (name wr = n)) as [E | E]; [| by left].
    right. pose proof (sound_wrapper _ _ _ Hs Hwr) as H.
    rewrite E, Hn in H. destruct H as (_ & H & _). congruence. }
  apply sound_intro; cbn [aggregateHandlersByName arrays set_aggregate wrappers];
    rewrite own_setProperty by done; rewrite ?length_app; cbn [length];
    rewrite ?Nat.add_1_r.
  - case_decide; [by apply refsOk_grow | by apply refsOk_fresh].
  - case_decide; [done |]. by rewrite lookup_insert_ne.
  - intros i wr Hwr. pose proof (sound_wrapper _ _ _ Hs Hwr) as H.
    assert (E : (if decide (n = "__proto__")
                 then own (aggregateHandlersByName w)
                 else <[n := length (arrays w)]> (own (aggregateHandlersByName w)))
                !! name wr = own (aggregateHandlersByName w) !! name wr).
    { case_decide as Hd; [done |]. apply lookup_insert_ne.
      destruct (Hwrap _ _ Hwr); congruence. }
    rewrite E.
    destruct (own (aggregateHandlersByName w) !! name wr) as [r |]; [done |].
    destruct H as (Harr & Hname & Hlt & Hno).
    split; [by rewrite array_grow |].
    split; [done |]. split; [lia |].
    intros n'. case_decide; [apply Hno |].
    rewrite lookup_insert. case_decide; [| apply Hno].
    intros [= Heq]. lia.
Qed.

(** Writing the array [r] keeps the discipline when no wrapper named
    ["__proto__"] holds [r]. *)
Lemma sound_set_array w r l :
  sound w ->
  (forall i wr, wrappers w !! i = Some wr ->
     own (aggregateHandlersByName w) !! name wr = None ->
     aggregateHandlers wr <> r) ->
  sound (set_aggregate (aggregateHandlersByName w) (<[r := l]> (arrays w)) w).
Proof.
  intros Hs Hne. apply sound_intro; cbn; rewrite ?length_insert.
  - by apply sound_refs.
  - by apply sound_proto.
  - intros i wr Hwr. pose proof (sound_wrapper _ _ _ Hs Hwr) as H.
    destruct (own (aggregateHandlersByName w) !! name wr) as [r' |] eqn:E;
      [done |].
    destruct H as (Harr & Hd). split; [| done].
    unfold array in *. cbn. rewrite list_lookup_insert_ne; [done |].
    intros Heq. by eapply Hne.
Qed.

(** What [aggregateArray] returns, in a state that follows the
    discipline: an array holding the handlers registered under the
    name, under a name that is a key afterwards unless it is
    ["__proto__"]. *)
Lemma aggregateArray_sound n w r w1 :
  sound w -> aggregateArray n w = (Ok r, w1) ->
  sound w1 /\
  intact (aggregateHandlersByName w) /\
  r < length (arrays w1) /\
  array w1 r = aggregateList w n /\
  (forall n', aggregateList w1 n' = aggregateList w n') /\
  (forall n', own (aggregateHandlersByName w1) !! n' = Some r ->
     n' = n /\ n <> "__proto__") /\
  (n <> "__proto__" -> own (aggregateHandlersByName w1) !! n = Some r) /\
  (forall i wr, wrappers w1 !! i = Some wr ->
     own (aggregateHandlersByName w1) !! name wr = None ->
     aggregateHandlers wr <> r).
Proof.
  intros Hs. pose proof (sound_refs _ Hs) as [Hv Hd].
  pose proof (sound_proto _ Hs) as Hp.
  rewrite aggregateArray_cases. unfold intact, aggregateList.
  destruct (own (aggregateHandlersByName w) !! "hasOwnProperty") eqn:E0;
    [done |].
  destruct (own (aggregateHandlersByName w) !! n) as [r0 |] eqn:E;
    intros [= <- <-].
  - split; [done |]. split; [done |]. split; [by eapply Hv |].
    split; [done |]. split; [done |]. split; [| split; [done |]].
    + intros n' H. split; [by eapply Hd | congruence].
    + intros i wr Hwr Hnone. pose proof (sound_wrapper _ _ _ Hs Hwr) as H.
      rewrite Hnone in H. destruct H as (_ & _ & _ & Hno).
      intros Heq. apply (Hno n). by rewrite Heq.
  - split; [by apply sound_newAggregate |]. split; [done |].
    cbn [aggregateHandlersByName arrays set_aggregate wrappers].
    rewrite own_setProperty by done. rewrite length_app. cbn [length].
    split; [lia |]. split; [apply array_fresh |]. split; [| split; [| split]].
    + intros n'. case_decide as Hn.
      * destruct (own (aggregateHandlersByName w) !! n') as [r' |] eqn:E';
          [| done]. apply array_grow. by eapply Hv.
      * rewrite lookup_insert. case_decide as Hn'.
        -- subst n'. rewrite E. apply array_fresh.
        -- destruct (own (aggregateHandlersByName w) !! n') as [r' |] eqn:E';
             [| done]. apply array_grow. by eapply Hv.
    + intros n'. case_decide as Hn.
      * intros H'. apply Hv in H'. lia.
      * rewrite lookup_insert. case_decide; [done |].
        intros H'. apply Hv in H'. lia.
    + intros Hn. rewrite decide_False by done. apply lookup_insert_eq.
    + intros i wr Hwr Hnone. pose proof (sound_wrapper _ _ _ Hs Hwr) as H.
      assert (E1 : own (aggregateHandlersByName w) !! name wr = None).
      { revert Hnone. case_decide; [done |]. rewrite lookup_insert.
        by case_decide. }
      rewrite E1 in H. destruct H as (_ & _ & Hlt & _). lia.
Qed.

End RegistryInvariant.

(** ** The operations of the module and the registries *)

Section ApiFacts.
Context {U : Type}.
Variable __DEV__ : bool.
Implicit Types (w : World U) (wr : Wrapper U).

Lemma stable_callInstrumented fuel (f : Callable U) this args :
  stable (callInstrumented fuel f this args).
Proof.
  destruct f as [g | wid]; cbn.
  - apply stable_runCode; [intros [] | apply stable_invocation].
  - apply stable_invocation.
Qed.

Lemma Stable_keys w w' :
  Stable w w' ->
  aggregateKeys w' = aggregateKeys w /\ profileKeys w' = profileKeys w.
Proof.
  intros [(Ha & _ & Hp & _) _]. unfold aggregateKeys, profileKeys.
  by rewrite Ha, Hp.
Qed.

Lemma sound_aggregateArray n w o w1 :
  sound w -> aggregateArray n w = (o, w1) -> sound w1.
Proof.
  intros Hs H. destruct o as [r | e |].
  - by destruct (aggregateArray_sound _ _ _ _ Hs H).
  - destruct (aggregateArray_frame _ _ _ _ H) as (_ & _ & _ & _ & _ & _ & Hw).
    by rewrite (Hw e).
  - by destruct (aggregateArray_frame _ _ _ _ H) as (_ & _ & _ & _ & _ & Hf & _).
Qed.

Lemma sound_instrument n (f : Fn U) w :
  sound w -> sound (snd (instrument __DEV__ n f w)).
Proof.
  intros Hs. unfold instrument. destruct __DEV__; [| exact Hs].
  unfold bind. destruct (aggregateArray n w) as [[r | e |] w1] eqn:E;
    [| by eapply sound_aggregateArray | by eapply sound_aggregateArray].
  destruct (aggregateArray_sound _ _ _ _ Hs E)
    as (Hs1 & _ & Hlt & Harr & _ & Hone & Hkey & _).
  cbn [snd]. apply sound_intro; cbn.
  - by apply sound_refs.
  - by apply sound_proto.
  - intros i wr Hwr. apply lookup_app_Some in Hwr as [Hwr | [_ Hwr]].
    { exact (sound_wrapper _ _ _ Hs1 Hwr). }
    apply list_lookup_singleton_Some in Hwr as [_ <-]. cbn.
    destruct (decide (n = "__proto__")) as [Hn | Hn].
    + subst n. rewrite (sound_proto _ Hs1). split.
      * unfold array in *. cbn. rewrite Harr.
        unfold aggregateList. by rewrite (sound_proto _ Hs).
      * split; [done |]. split; [done |]. intros n' H.
        by destruct (Hone _ H).
    + by rewrite (Hkey Hn).
Qed.

Lemma sound_instrumentMethods (o : gmap string (Callable U)) ns w :
  sound w -> sound (snd (instrumentMethods __DEV__ o ns w)).
Proof.
  revert o w. induction ns as [| [key n] ns IH]; intros o w Hs; [done |].
  cbn [instrumentMethods]. unfold bind. destruct __DEV__ eqn:Edev.
  - pose proof (sound_instrument n (asFunction (o !! key)) w Hs) as H1.
    rewrite Edev in H1.
    destruct (instrument true n (asFunction (o !! key)) w) as [[c | e |] w1];
      [by apply IH | done | done].
  - destruct (o !! key); [by apply IH | done].
Qed.

Lemma sound_set_handlers w wid wr hs :
  wrappers w !! wid = Some wr -> sound w ->
  sound (set_wrappers (<[wid := set_handlers hs wr]> (wrappers w)) w).
Proof.
  intros Hwr Hs. apply sound_intro; cbn.
  - by apply sound_refs.
  - by apply sound_proto.
  - intros i wr' Hwr'.
    destruct (decide (i = wid)) as [-> | Hi].
    + rewrite list_lookup_insert_eq in Hwr' by (by eapply lookup_lt_Some).
      inversion Hwr'. exact (sound_wrapper _ _ _ Hs Hwr).
    + rewrite list_lookup_insert_ne in Hwr' by done.
      exact (sound_wrapper _ _ _ Hs Hwr').
Qed.

Lemma sound_attachAggregateHandler n (h : Handler U) w :
  sound w -> sound (snd (attachAggregateHandler __DEV__ n h w)).
Proof.
  intros Hs. unfold attachAggregateHandler. destruct __DEV__; [| exact Hs].
  unfold bind. destruct (aggregateArray n w) as [[r | e |] w1] eqn:E;
    [| by eapply sound_aggregateArray | by eapply sound_aggregateArray].
  destruct (aggregateArray_sound _ _ _ _ Hs E) as (Hs1 & _ & _ & _ & _ & _ & _ & Hne).
  cbn. by apply sound_set_array.
Qed.

(** With an intact registry the check of [detachAggregateHandler] says
    whether the name is a key. *)
Lemma detachAggregateHandler_cases n (h : Handler U) w :
  detachAggregateHandler true n h w =
    match own (aggregateHandlersByName w) !! "hasOwnProperty" with
    | Some _ => (Thrown typeError, w)
    | None =>
        match own (aggregateHandlersByName w) !! n with
        | Some r =>
            (Ok tt,
             set_aggregate (aggregateHandlersByName w)
               (<[r := removeFromArray sameHandler (array w r) h]> (arrays w)) w)
        | None => (Ok tt, w)
        end
    end.
Proof.
  unfold detachAggregateHandler, bind, hasAggregate, hasOwnProperty.
  destruct (own (aggregateHandlersByName w) !! "hasOwnProperty"); [done |].
  destruct (own (aggregateHandlersByName w) !! n) as [r |] eqn:E.
  - rewrite bool_decide_eq_true_2 by eauto. cbn.
    unfold getAggregate, getProperty. by rewrite E.
  - by rewrite bool_decide_eq_false_2 by (by intros [? ?]).
Qed.

Lemma sound_detachAggregateHandler n (h : Handler U) w :
  sound w -> sound (snd (detachAggregateHandler __DEV__ n h w)).
Proof.
  intros Hs. destruct __DEV__; [| exact Hs].
  rewrite detachAggregateHandler_cases.
  destruct (own (aggregateHandlersByName w) !! "hasOwnProperty"); [done |].
  destruct (own (aggregateHandlersByName w) !! n) as [r |] eqn:E; [| done].
  cbn. apply sound_set_array; [done |].
  intros i wr Hwr Hnone Heq. pose proof (sound_wrapper _ _ _ Hs Hwr) as H.
  rewrite Hnone in H. destruct H as (_ & _ & _ & Hno).
  apply (Hno n). by rewrite Heq.
Qed.

(** The outcomes of [attachProfileHandler] and [detachProfileHandler]
    with profiling enabled. *)
Lemma attachProfileHandler_cases n (h : ProfileHandler U) w :
  enableProfile w = true ->
  attachProfileHandler n h w =
    match own (profileHandlersByName w) !! "hasOwnProperty" with
    | Some _ => (Thrown typeError, w)
    | None =>
        (Ok tt,
         set_profileHandlersByName
           (match own (profileHandlersByName w) !! n with
            | Some hs =>
                mkJsMap (<[n := hs ++ [h]]> (own (profileHandlersByName w)))
                        (proto (profileHandlersByName w))
            | None =>
                if decide (n = "__proto__")
                then mkJsMap (own (profileHandlersByName w)) (Some [h])
                else mkJsMap (<[n := [h]]> (own (profileHandlersByName w)))
                             (proto (profileHandlersByName w))
            end) w)
    end.
Proof.
  intros Hen. unfold attachProfileHandler. rewrite Hen.
  unfold bind, hasProfile, hasOwnProperty.
  destruct (own (profileHandlersByName w) !! "hasOwnProperty"); [done |].
  destruct (own (profileHandlersByName w) !! n) as [hs |] eqn:E.
  - rewrite bool_decide_eq_true_2 by eauto. cbn.
    unfold getProfile, getProperty. rewrite E. cbn.
    unfold storeProfile, storeProperty. by rewrite E.
  - rewrite bool_decide_eq_false_2 by (by intros [? ?]). cbn.
    unfold getProfile. cbn. rewrite getProperty_setProperty. cbn.
    unfold storeProfile, set_profileHandlersByName. cbn. do 2 f_equal.
    unfold storeProperty, setProperty. rewrite E.
    destruct (decide (n = "__proto__")) as [Hn | Hn]; cbn.
    + by rewrite E.
    + rewrite lookup_insert_eq. by rewrite insert_insert_eq.
Qed.

Lemma detachProfileHandler_cases n (h : ProfileHandler U) w :
  enableProfile w = true ->
  detachProfileHandler n h w =
    match own (profileHandlersByName w) !! "hasOwnProperty" with
    | Some _ => (Thrown typeError, w)
    | None =>
        match own (profileHandlersByName w) !! n with
        | Some hs =>
            (Ok tt,
             set_profileHandlersByName
               (mkJsMap (<[n := removeFromArray sameProfileHandler hs h]>
                           (own (profileHandlersByName w)))
                        (proto (profileHandlersByName w))) w)
        | None => (Ok tt, w)
        end
    end.
Proof.
  intros Hen. unfold detachProfileHandler. rewrite Hen.
  unfold bind, hasProfile, hasOwnProperty.
  destruct (own (profileHandlersByName w) !! "hasOwnProperty"); [done |].
  destruct (own (profileHandlersByName w) !! n) as [hs |] eqn:E.
  - rewrite bool_decide_eq_true_2 by eauto. cbn.
    unfold getProfile, getProperty. rewrite E. cbn.
    unfold storeProfile, storeProperty. by rewrite E.
  - by rewrite bool_decide_eq_false_2 by (by intros [? ?]).
Qed.

(** The profile API touches the profile registry only. *)
Lemma attachProfileHandler_frame n (h : ProfileHandler U) w :
  set_profileHandlersByName (profileHandlersByName w)
    (snd (attachProfileHandler n h w)) = w.
Proof.
  destruct (enableProfile w) eqn:Hen.
  - rewrite attachProfileHandler_cases by done.
    destruct (own (profileHandlersByName w) !! "hasOwnProperty");
      by destruct w.
  - unfold attachProfileHandler. rewrite Hen. by destruct w.
Qed.

Lemma detachProfileHandler_frame n (h : ProfileHandler U) w :
  set_profileHandlersByName (profileHandlersByName w)
    (snd (detachProfileHandler n h w)) = w.
Proof.
  destruct (enableProfile w) eqn:Hen.
  - rewrite detachProfileHandler_cases by done.
    destruct (own (profileHandlersByName w) !! "hasOwnProperty");
      [by destruct w |].
    destruct (own (profileHandlersByName w) !! n); by destruct w.
  - unfold detachProfileHandler. rewrite Hen. by destruct w.
Qed.

(** Every operation keeps the discipline of the aggregate registry. *)
Lemma sound_step (op : Op U) w : sound w -> sound (step __DEV__ op w).
Proof.
  intros Hs. destruct op as [b | n f | o ns | c h | c h | n h | n h |
                             fuel c t a | n s | s | n h | n h]; cbn [step].
  - exact Hs.
  - by apply sound_instrument.
  - by apply sound_instrumentMethods.
  - destruct c as [g | wid]; [done |]. cbn.
    destruct (wrappers w !! wid) as [wr |] eqn:E; [| done].
    by apply sound_set_handlers.
  - destruct c as [g | wid]; [done |]. cbn.
    destruct (wrappers w !! wid) as [wr |] eqn:E; [| done].
    by apply sound_set_handlers.
  - by apply sound_attachAggregateHandler.
  - by apply sound_detachAggregateHandler.
  - eapply sound_Stable; [| exact Hs].
    eapply stable_callInstrumented. apply surjective_pairing.
  - eapply sound_Stable; [| exact Hs].
    eapply stable_profile. apply surjective_pairing.
  - eapply sound_Stable; [| exact Hs].
    eapply stable_stop. apply surjective_pairing.
  - assert (H : sound (set_profileHandlersByName (profileHandlersByName w)
                         (snd (attachProfileHandler n h w))))
      by (by rewrite attachProfileHandler_frame).
    exact H.
  - assert (H : sound (set_profileHandlersByName (profileHandlersByName w)
                         (snd (detachProfileHandler n h w))))
      by (by rewrite detachProfileHandler_frame).
    exact H.
Qed.

Lemma sound_steps (ops : list (Op U)) w : sound w -> sound (steps __DEV__ ops w).
Proof.
  revert w. induction ops as [| op ops IH]; intros w Hs; [done |].
  unfold steps in *. cbn [foldl]. apply IH. by apply sound_step.
Qed.

End ApiFacts.
(** ** The recursion budget *)

Section Budget.
Context {U : Type}.
Implicit Types (w : World U) (wr : Wrapper U).

Lemma refines_refl {A} (m : M U A) : refines m m.
Proof. by intros w o w' H _. Qed.

Lemma refines_bind {A B} (m1 m2 : M U A) (k1 k2 : A -> M U B) :
  refines m1 m2 -> (forall a, refines (k1 a) (k2 a)) ->
  refines (bind m1 k1) (bind m2 k2).
Proof.
  intros Hm Hk w o w' H Ho. unfold bind in *.
  destruct (m1 w) as [[a | e |] w1] eqn:E.
  - rewrite (Hm _ _ _ E) by done. by apply Hk.
  - rewrite (Hm _ _ _ E) by done. exact H.
  - inversion H; subst. done.
Qed.

Lemma refines_tryCatch {A B} (m1 m2 : M U A) (k1 k2 : A -> M U B)
    (h1 h2 : Value -> M U B) :
  refines m1 m2 -> (forall a, refines (k1 a) (k2 a)) ->
  (forall e, refines (h1 e) (h2 e)) ->
  refines (tryCatch m1 k1 h1) (tryCatch m2 k2 h2).
Proof.
  intros Hm Hk Hh w o w' H Ho. unfold tryCatch in *.
  destruct (m1 w) as [[a | e |] w1] eqn:E.
  - rewrite (Hm _ _ _ E) by done. by apply Hk.
  - rewrite (Hm _ _ _ E) by done. by apply Hh.
  - inversion H; subst. done.
Qed.

Lemma refines_runCode {P A} (cb1 cb2 : P -> M U unit)
    (call1 call2 : nat -> Value -> list Value -> M U Value) (c : Code U P A) :
  (forall p, refines (cb1 p) (cb2 p)) ->
  (forall wid t a, refines (call1 wid t a) (call2 wid t a)) ->
  refines (runCode cb1 call1 c) (runCode cb2 call2 c).
Proof.
  intros Hcb Hcall.
  induction c as [a0 | f k IH | k IH | e | wid t a0 k IH | p k IH |
                  wid t a0 k IH | p k IH]; cbn.
  - apply refines_refl.
  - intros w o w' H Ho. by apply IH.
  - intros w o w' H Ho. by apply (IH (client w)).
  - apply refines_refl.
  - apply refines_bind; [apply Hcall | done].
  - apply refines_bind; [apply Hcb | done].
  - apply refines_tryCatch; [apply Hcall | done | done].
  - apply refines_tryCatch; [apply Hcb | done | done].
Qed.

Lemma refines_applyOriginal call1 call2 wid fr (f : Fn U) this args :
  (forall wid t a, refines (call1 wid t a) (call2 wid t a)) ->
  refines (applyOriginal call1 wid fr f this args)
          (applyOriginal call2 wid fr f this args).
Proof.
  intros Hcall. unfold applyOriginal.
  apply refines_bind; [apply refines_refl | intros _].
  apply refines_bind; [| intros v; apply refines_refl].
  apply refines_runCode; [intros [] | done].
Qed.

Lemma refines_step (n : nat) :
  (forall wid, refines (@invokeHandlers U n wid) (invokeHandlers (S n) wid)) /\
  (forall wid this args,
     refines (@instrumentedCallback U n wid this args)
             (instrumentedCallback (S n) wid this args)).
Proof.
  induction n as [| n [IH1 IH2]].
  - split; intros; intros w o w' H Ho; inversion H; by subst.
  - split.
    + intros wid. cbn [invokeHandlers]. unfold invokeHandlers_body.
      apply refines_bind; [apply refines_refl | intros wr].
      apply refines_bind; [apply refines_refl | intros top].
      destruct (negb (c0 top =? 0)); [| destruct (negb (c1 top =? 0))].
      * apply refines_bind; [apply refines_refl | intros _].
        apply refines_bind; [apply refines_refl | intros aggregate].
        apply refines_bind; [apply refines_refl | intros h].
        apply refines_bind; [apply refines_refl | intros _].
        by apply refines_runCode.
      * apply refines_bind; [apply refines_refl | intros _].
        apply refines_bind; [apply refines_refl | intros wr1].
        apply refines_bind; [apply refines_refl | intros h].
        apply refines_bind; [apply refines_refl | intros _].
        by apply refines_runCode.
      * apply refines_bind; [by apply refines_applyOriginal | intros v].
        apply refines_refl.
    + intros wid this args. cbn [instrumentedCallback].
      unfold instrumentedCallback_body.
      apply refines_bind; [apply refines_refl | intros wr].
      apply refines_bind; [apply refines_refl | intros aggregate].
      destruct ((length aggregate =? 0) && (length (handlers wr) =? 0)).
      * by apply refines_applyOriginal.
      * apply refines_bind; [apply refines_refl | intros _].
        apply refines_bind; [apply IH1 | intros _]. apply refines_refl.
Qed.

(** A call that ends within a budget ends the same way within any
    larger one. *)
Lemma fuel_monotone (n m : nat) wid this args :
  n <= m ->
  refines (@instrumentedCallback U n wid this args)
          (instrumentedCallback m wid this args).
Proof.
  induction 1 as [| m Hle IH]; [apply refines_refl |].
  intros w o w' H Ho. apply (proj2 (refines_step m)); [| done]. by apply IH.
Qed.

End Budget.

(** ** Wrappers of pure functions *)

Section PureOriginal.
Context {U : Type}.
Variables (wid0 : nat) (g : Value -> list Value -> Value).
Implicit Types (w : World U) (wr : Wrapper U) (evs : list Event).

Lemma pureOriginal_Stable w w' :
  Stable w w' -> pureOriginal wid0 g w -> pureOriginal wid0 g w'.
Proof.
  intros [_ Hw] (wr & Hwr & Hg).
  assert (H : (set_contexts [] <$> wrappers w') !! wid0 = Some (set_contexts [] wr))
    by (by rewrite Hw, list_lookup_fmap, Hwr).
  rewrite list_lookup_fmap in H.
  destruct (wrappers w' !! wid0) as [wr' |] eqn:E; [| discriminate].
  exists wr'. split; [done |]. intros t a.
  cbn in H. inversion H as [[Hn Ho Ha Hh Hd]]. rewrite <- Hg.
  by apply (f_equal (fun f => f t a)) in Ho.
Qed.

Lemma honest_refl w : pureOriginal wid0 g w -> honest wid0 g w w.
Proof.
  intros H. split; [done |]. exists []. split; [by rewrite app_nil_r | constructor].
Qed.

Lemma honest_trans w1 w2 w3 :
  honest wid0 g w1 w2 -> honest wid0 g w2 w3 -> honest wid0 g w1 w3.
Proof.
  intros (_ & evs1 & Hl1 & Hf1) (Hp & evs2 & Hl2 & Hf2).
  split; [done |]. exists (evs1 ++ evs2).
  split; [by rewrite Hl2, Hl1, app_assoc | by apply Forall_app].
Qed.

(** A step that is stable and logs one harmless event, or none. *)
Lemma honest_step w1 w2 w3 evs :
  honest wid0 g w1 w2 -> Stable w2 w3 -> log w3 = log w2 ++ evs ->
  faithful wid0 g evs -> honest wid0 g w1 w3.
Proof.
  intros H12 Hst Hl Hf. eapply honest_trans; [exact H12 |].
  split; [eapply pureOriginal_Stable; [exact Hst | apply H12] |].
  by exists evs.
Qed.

Lemma honest_runCode {P A} (callback : P -> M U unit) call (c : Code U P A) w0 :
  (forall p, stable (callback p)) ->
  (forall wid t a, stable (call wid t a)) ->
  (forall p w w', catchFree w -> pureOriginal wid0 g w ->
     callback p w = (Ok tt, w') -> honest wid0 g w w') ->
  honest_call wid0 g call ->
  plain c ->
  forall w a w', honest wid0 g w0 w /\ catchFree w ->
    runCode callback call c w = (Ok a, w') ->
    honest wid0 g w0 w' /\ catchFree w'.
Proof.
  intros Hscb Hscall Hcb Hcall Hc.
  apply (runCode_inv (fun x => honest wid0 g w0 x /\ catchFree x)); [| | | exact Hc].
  - intros u w [(Hp & evs & Hl & Hf) Hcf].
    split; [| by apply catchFree_client]. split; [| by exists evs].
    destruct Hp as (wr & Hwr & Hg). by exists wr.
  - intros p w w' [Hw Hcf] Hrun. split.
    + eapply honest_trans; [exact Hw |].
      eapply Hcb; [exact Hcf | apply Hw | exact Hrun].
    + eapply catchFree_Stable; [| exact Hcf]. by eapply Hscb.
  - intros wid t a w v w' [Hw Hcf] Hrun. split.
    + eapply honest_trans; [exact Hw |].
      eapply Hcall; [exact Hcf | apply Hw | exact Hrun].
    + eapply catchFree_Stable; [| exact Hcf]. by eapply Hscall.
Qed.

Lemma honest_applyOriginal call wid fr wr this args w v w' :
  (forall wid t a, stable (call wid t a)) ->
  honest_call wid0 g call ->
  catchFree w ->
  pureOriginal wid0 g w ->
  wrappers w !! wid = Some wr ->
  applyOriginal call wid fr (originalFunction wr) this args w = (Ok v, w') ->
  honest wid0 g w w'.
Proof.
  intros Hscall Hcall Hcf Hp Hwr H. unfold applyOriginal in H.
  bind_inv H as x w1 He. cbn in He. inversion He; subst x w1; clear He.
  bind_inv H as v0 w2 Hm. bind_inv H as x w3 He.
  cbn in He, H. inversion He; inversion H; subst; clear He H.
  set (w1 := set_log (log w ++ [EvOriginal wid fr this args]) w) in *.
  assert (H1 : honest wid0 g w w1).
  { eapply (honest_step w w w1 [EvOriginal wid fr this args]);
      [by apply honest_refl | by repeat split | done |].
    constructor; [| constructor]. intros ? ? ? ? [=]. }
  destruct (decide (wid = wid0)) as [-> | Hne].
  - (* the pure function itself *)
    destruct Hp as (wr0 & Hwr0 & Hg). rewrite Hwr in Hwr0.
    inversion Hwr0; subst wr0; clear Hwr0.
    rewrite Hg in Hm. cbn in Hm. inversion Hm; subst v w2; clear Hm.
    eapply (honest_step w w1 _ [EvReturn wid0 fr this args (g this args)]);
      [exact H1 | by repeat split | done |].
    constructor; [| constructor]. by intros ? ? ? ? [= _ -> -> ->].
  - assert (H2 : honest wid0 g w w2).
    { eapply (honest_runCode noCallback call (originalFunction wr this args) w);
        [intros [] | done | intros [] | done | | | exact Hm].
      - by apply (catchFree_wrapper _ _ _ Hcf Hwr).
      - split; [exact H1 | by apply catchFree_log]. }
    eapply (honest_step w w2 _ [EvReturn wid fr this args v]);
      [exact H2 | by repeat split | done |].
    constructor; [| constructor]. intros ? ? ? ? [= -> _ _ _ _]. done.
Qed.

Lemma honest_bodies (ih : nat -> M U unit) call :
  (forall wid, stable (ih wid)) ->
  (forall wid t a, stable (call wid t a)) ->
  honest_chain wid0 g ih -> honest_call wid0 g call ->
  honest_chain wid0 g (invokeHandlers_body ih call) /\
  honest_call wid0 g (instrumentedCallback_body ih call).
Proof.
  intros Hst Hscall Hih Hcall. split.
  - intros wid w w' Hcf Hp H. unfold invokeHandlers_body in H.
    bind_inv H as wr w1 Hm. apply getWrapper_Ok in Hm as [-> Hwr].
    bind_inv H as top w1 Hm. apply callable_Ok in Hm as [-> Htop].
    assert (Hupd : forall f x w1,
              updContext wid (length (contexts wr) - 1) f w = (Ok x, w1) ->
              honest wid0 g w w1 /\ Stable w w1).
    { intros f x w1 Hu.
      pose proof (stable_updContext _ _ _ _ _ _ Hu) as Hs1. split; [| done].
      eapply (honest_step w w w1 []); [by apply honest_refl | done | | constructor].
      rewrite app_nil_r. apply updContext_Ok in Hu as (wr' & _ & ->).
      by destruct (contexts wr' !! _). }
    assert (Hcode : forall (c : Code U unit unit) w1 a w2,
              plain c -> honest wid0 g w w1 -> Stable w w1 ->
              runCode (fun _ => ih wid) call c w1 = (Ok a, w2) ->
              honest wid0 g w w2).
    { intros c w1 a w2 Hc Hw1 Hs1 Hrun.
      eapply (honest_runCode (fun _ => ih wid) call c w);
        [done | done | | done | exact Hc | | exact Hrun].
      - intros _ x x' Hx Hpx Hr. by eapply Hih.
      - split; [exact Hw1 | by eapply catchFree_Stable]. }
    destruct (negb (c0 top =? 0)); [| destruct (negb (c1 top =? 0))].
    + bind_inv H as x w1 Hm. apply Hupd in Hm as [Hm Hs1].
      pose proof (catchFree_Stable _ _ Hs1 Hcf) as Hcf1.
      bind_inv H as aggregate w2 Hm2. apply getArray_Ok in Hm2 as [-> ->].
      bind_inv H as h w2 Hm2. apply callable_Ok in Hm2 as [-> Hh].
      bind_inv H as y w2 Hm2. cbn in Hm2. inversion Hm2; subst y w2; clear Hm2.
      eapply Hcode; [| | | exact H].
      * by apply (catchFree_array _ _ _ _ Hcf1 Hh).
      * eapply (honest_step w w1 _ [EvHandler wid _ Aggregate _ (hid h)]);
          [exact Hm | by repeat split | done |].
        constructor; [| constructor]. intros ? ? ? ? [=].
      * eapply Stable_trans; [exact Hs1 | by repeat split].
    + bind_inv H as x w1 Hm. apply Hupd in Hm as [Hm Hs1].
      pose proof (catchFree_Stable _ _ Hs1 Hcf) as Hcf1.
      bind_inv H as wr1 w2 Hm2. apply getWrapper_Ok in Hm2 as [-> Hwr1].
      bind_inv H as h w2 Hm2. apply callable_Ok in Hm2 as [-> Hh].
      bind_inv H as y w2 Hm2. cbn in Hm2. inversion Hm2; subst y w2; clear Hm2.
      eapply Hcode; [| | | exact H].
      * destruct (catchFree_wrapper _ _ _ Hcf1 Hwr1) as [Hall _].
        rewrite Forall_lookup in Hall. by eapply Hall.
      * eapply (honest_step w w1 _ [EvHandler wid _ Instance _ (hid h)]);
          [exact Hm | by repeat split | done |].
        constructor; [| constructor]. intros ? ? ? ? [=].
      * eapply Stable_trans; [exact Hs1 | by repeat split].
    + bind_inv H as v w1 Hm.
      apply (honest_applyOriginal call wid _ wr) in Hm; [| done | done | done | done | done].
      eapply (honest_step w w1 w' []); [exact Hm | | | constructor].
      * by eapply stable_updContext.
      * rewrite app_nil_r. apply updContext_Ok in H as (wr' & _ & ->).
        by destruct (contexts wr' !! _).
  - intros wid this args w v w' Hcf Hp H. unfold instrumentedCallback_body in H.
    bind_inv H as wr w1 Hm. apply getWrapper_Ok in Hm as [-> Hwr].
    bind_inv H as aggregate w1 Hm. apply getArray_Ok in Hm as [-> ->].
    destruct ((length (array w (aggregateHandlers wr)) =? 0)
              && (length (handlers wr) =? 0)).
    + by eapply honest_applyOriginal.
    + bind_inv H as x w1 Hm.
      pose proof (stable_pushContext _ _ _ _ _ Hm) as Hst1.
      apply pushContext_Ok in Hm as (wr' & _ & ->).
      set (w1 := set_wrappers _ w) in *.
      assert (H1 : honest wid0 g w w1).
      { eapply (honest_step w w w1 []);
          [by apply honest_refl | done | by rewrite app_nil_r | constructor]. }
      bind_inv H as y w2 Hm. destruct y.
      assert (H2 : honest wid0 g w w2).
      { eapply honest_trans; [exact H1 |].
        eapply Hih; [by eapply catchFree_Stable | apply H1 | exact Hm]. }
      bind_inv H as context w3 Hm3.
      pose proof (stable_popContext _ _ _ _ Hm3) as Hst3.
      apply popContext_Ok in Hm3 as (wr3 & _ & _ & Hw3).
      assert (H3 : honest wid0 g w w3).
      { eapply (honest_step w w2 w3 []);
          [exact H2 | done | by rewrite Hw3, app_nil_r | constructor]. }
      destruct (c4 context); inversion H; by subst.
Qed.

Lemma honest_invocation (fuel : nat) :
  honest_chain wid0 g (@invokeHandlers U fuel) /\
  honest_call wid0 g (@instrumentedCallback U fuel).
Proof.
  induction fuel as [| n [IH1 IH2]].
  - split; [intros wid w w' _ _ H | intros wid t a w v w' _ _ H]; discriminate.
  - apply honest_bodies; [| | done | done]; apply stable_invocation.
Qed.

Lemma lastReturn_elem_of wid fr evs t a v :
  lastReturn wid fr evs = Some (t, a, v) -> EvReturn wid fr t a v ∈ evs.
Proof.
  induction evs as [| e evs IH]; cbn; [done |].
  destruct (lastReturn wid fr evs) as [r |].
  - intros [= ->]. right. by apply IH.
  - destruct e as [| | wid' fr' t' a' v' |]; cbn; try done.
    case_decide as Hd; [| done]. destruct Hd as [-> ->].
    intros [= -> -> ->]. left.
Qed.

(** A wrapper of a pure function returns the value of that function
    on the receiver and arguments of the call, whatever its handlers
    did. *)
Lemma pure_original_value fuel w wid this args v w' :
  wid = wid0 ->
  catchFree w ->
  pureOriginal wid0 g w ->
  instrumentedCallback fuel wid this args w = (Ok v, w') ->
  v = g this args.
Proof.
  intros -> Hcf Hp H.
  destruct (proj2 (chain_invariant fuel) _ _ _ _ _ _ Hcf H)
    as (evs & (_ & _ & Hl & _) & fr & _ & Hret).
  destruct (proj2 (honest_invocation fuel) _ _ _ _ _ _ Hcf Hp H)
    as (_ & evs' & Hl' & Hf).
  rewrite Hl in Hl'. apply app_inv_head in Hl'. subst evs'.
  apply lastReturn_elem_of in Hret.
  unfold faithful in Hf. rewrite Forall_forall in Hf.
  by apply (Hf _ Hret fr this args v).
Qed.

End PureOriginal.


(** ** Wrappers without handlers *)

Section Handlerless.
Context {U : Type}.
Implicit Types (w x : World U) (wr : Wrapper U).








End Handlerless.
(** * The claims *)

Section Claims.
Context {U : Type}.
Implicit Types (w : World U) (wr : Wrapper U) (evs : list Event).

(** ** The keys of the registries *)

Lemma instrument_cases n (f : Fn U) w :
  instrument true n f w =
    match aggregateArray n w with
    | (Ok r, w1) =>
        (Ok (Instrumented (length (wrappers w1))),
         set_wrappers
           (wrappers w1 ++
              [mkWrapper n f r [] [] ("(instrumented " +:+ n +:+ ")")]) w1)
    | (Thrown e, w1) => (Thrown e, w1)
    | (OutOfFuel, w1) => (OutOfFuel, w1)
    end.
Proof. unfold instrument, bind. by destruct (aggregateArray n w) as [[r | e |] w1]. Qed.

Lemma instrument_frame (__DEV__ : bool) n (f : Fn U) w :
  profileHandlersByName (snd (instrument __DEV__ n f w)) = profileHandlersByName w /\
  enableProfile (snd (instrument __DEV__ n f w)) = enableProfile w /\
  client (snd (instrument __DEV__ n f w)) = client w /\
  log (snd (instrument __DEV__ n f w)) = log w.
Proof.
  destruct __DEV__; [| done]. rewrite instrument_cases.
  destruct (aggregateArray n w) as [o w1] eqn:E.
  destruct (aggregateArray_frame _ _ _ _ E) as (Hp & He & _ & Hc & Hl & _).
  by destruct o.
Qed.

Lemma instrumentMethods_frame (__DEV__ : bool) (o : gmap string (Callable U)) ns w :
  profileHandlersByName (snd (instrumentMethods __DEV__ o ns w)) =
    profileHandlersByName w /\
  enableProfile (snd (instrumentMethods __DEV__ o ns w)) = enableProfile w /\
  client (snd (instrumentMethods __DEV__ o ns w)) = client w /\
  log (snd (instrumentMethods __DEV__ o ns w)) = log w.
Proof.
  revert o w. induction ns as [| [key n] ns IH]; intros o w; [done |].
  cbn [instrumentMethods]. unfold bind. destruct __DEV__ eqn:Edev.
  - pose proof (instrument_frame true n (asFunction (o !! key)) w)
      as (Hp & He & Hc & Hl).
    destruct (instrument true n (asFunction (o !! key)) w) as [[c | e |] w1];
      cbn [snd] in *; [| done | done].
    destruct (IH (<[key := c]> o) w1) as (Hp1 & He1 & Hc1 & Hl1).
    by rewrite Hp1, He1, Hc1, Hl1.
  - destruct (o !! key); [apply IH | done].
Qed.

Lemma attachAggregateHandler_frame (__DEV__ : bool) n (h : Handler U) w :
  profileHandlersByName (snd (attachAggregateHandler __DEV__ n h w)) =
    profileHandlersByName w /\
  enableProfile (snd (attachAggregateHandler __DEV__ n h w)) = enableProfile w /\
  wrappers (snd (attachAggregateHandler __DEV__ n h w)) = wrappers w /\
  client (snd (attachAggregateHandler __DEV__ n h w)) = client w /\
  log (snd (attachAggregateHandler __DEV__ n h w)) = log w.
Proof.
  unfold attachAggregateHandler. destruct __DEV__; [| done]. unfold bind.
  destruct (aggregateArray n w) as [o w1] eqn:E.
  destruct (aggregateArray_frame _ _ _ _ E) as (Hp & He & Hw & Hc & Hl & _).
  by destruct o.
Qed.

Lemma detachAggregateHandler_frame (__DEV__ : bool) n (h : Handler U) w :
  aggregateHandlersByName (snd (detachAggregateHandler __DEV__ n h w)) =
    aggregateHandlersByName w /\
  profileHandlersByName (snd (detachAggregateHandler __DEV__ n h w)) =
    profileHandlersByName w /\
  enableProfile (snd (detachAggregateHandler __DEV__ n h w)) = enableProfile w /\
  wrappers (snd (detachAggregateHandler __DEV__ n h w)) = wrappers w /\
  client (snd (detachAggregateHandler __DEV__ n h w)) = client w /\
  log (snd (detachAggregateHandler __DEV__ n h w)) = log w.
Proof.
  destruct __DEV__; [| done]. rewrite detachAggregateHandler_cases.
  destruct (own (aggregateHandlersByName w) !! "hasOwnProperty"); [done |].
  by destruct (own (aggregateHandlersByName w) !! n).
Qed.

Lemma keys_instrument n (f : Fn U) w :
  aggregateKeys (snd (instrument true n f w)) = keysAfter (aggregateKeys w) [n].
Proof.
  rewrite <- keys_aggregateArray, instrument_cases.
  by destruct (aggregateArray n w) as [[r | e |] w1].
Qed.

Lemma keysAfter_cons (ks : gset string) n ns :
  keysAfter ks (n :: ns) =
    if decide ("hasOwnProperty" ∈ ks) then ks
    else keysAfter (keysAfter ks [n]) ns.
Proof. cbn. by case_decide. Qed.

Lemma instrument_shadowed n (f : Fn U) w :
  "hasOwnProperty" ∈ aggregateKeys w ->
  instrument true n f w = (Thrown typeError, w).
Proof.
  intros H. rewrite instrument_cases, aggregateArray_shadowed; [done |].
  unfold intact, aggregateKeys in *. apply elem_of_dom in H as [r Hr]. congruence.
Qed.

Lemma instrument_intact n (f : Fn U) w :
  "hasOwnProperty" ∉ aggregateKeys w ->
  exists c, fst (instrument true n f w) = Ok c.
Proof.
  intros H. unfold aggregateKeys in H. apply not_elem_of_dom in H.
  rewrite instrument_cases, aggregateArray_cases, H.
  destruct (own (aggregateHandlersByName w) !! n); eauto.
Qed.

Lemma keys_instrumentMethods (o : gmap string (Callable U)) ns w :
  aggregateKeys (snd (instrumentMethods true o ns w)) =
    keysAfter (aggregateKeys w) (snd <$> ns).
Proof.
  revert o w. induction ns as [| [key n] ns IH]; intros o w; [done |].
  cbn [instrumentMethods fmap list_fmap snd]. rewrite keysAfter_cons.
  unfold bind. case_decide as Hs.
  - by rewrite instrument_shadowed.
  - destruct (instrument_intact n (asFunction (o !! key)) w Hs) as [c Hc].
    pose proof (keys_instrument n (asFunction (o !! key)) w) as Hk.
    destruct (instrument true n (asFunction (o !! key)) w) as [res w1].
    cbn in Hc, Hk. subst res. by rewrite IH, Hk.
Qed.

Lemma instrumentMethods_production_state (o : gmap string (Callable U)) ns w :
  snd (instrumentMethods false o ns w) = w.
Proof.
  revert o. induction ns as [| [key n] ns IH]; intros o; [done |]. cbn.
  unfold bind. destruct (o !! key); [apply IH | done].
Qed.

Lemma keys_attachProfileHandler n (h : ProfileHandler U) w :
  enableProfile w = true ->
  profileKeys (snd (attachProfileHandler n h w)) = keysAfter (profileKeys w) [n].
Proof.
  intros Hen. rewrite attachProfileHandler_cases by done.
  unfold profileKeys. cbn [keysAfter].
  destruct (own (profileHandlersByName w) !! "hasOwnProperty") as [r0 |] eqn:E0.
  { rewrite decide_True; [done |]. by eapply elem_of_dom_2. }
  destruct (decide ("hasOwnProperty" ∈ dom (own (profileHandlersByName w))))
    as [Hin | _]; [apply elem_of_dom in Hin as [? ?]; congruence |].
  destruct (own (profileHandlersByName w) !! n) as [hs |] eqn:E; cbn.
  - rewrite dom_insert_L. apply elem_of_dom_2 in E. case_decide.
    + apply set_eq. intros x. rewrite elem_of_union, elem_of_singleton.
      split; [intros [-> | ?]; auto | auto].
    + apply union_comm_L.
  - case_decide; cbn; [done |]. rewrite dom_insert_L. apply union_comm_L.
Qed.

Lemma keys_detachProfileHandler n (h : ProfileHandler U) w :
  profileKeys (snd (detachProfileHandler n h w)) = profileKeys w.
Proof.
  destruct (enableProfile w) eqn:Hen.
  - rewrite detachProfileHandler_cases by done. unfold profileKeys.
    destruct (own (profileHandlersByName w) !! "hasOwnProperty"); [done |].
    destruct (own (profileHandlersByName w) !! n) as [hs |] eqn:E; [| done].
    cbn. apply dom_insert_lookup_L. eauto.
  - unfold detachProfileHandler. by rewrite Hen.
Qed.

(** C8 (amended): the keys of the two registries after an operation.
    The aggregate registry changes in development mode only, through
    the statement [if (!m.hasOwnProperty(n)) m[n] = []] that
    [instrument] (also when [instrumentMethods] calls it) and
    [attachAggregateHandler] run for their name; the profile registry
    changes only while profiling is enabled, through the same statement
    of [attachProfileHandler].  That statement adds the name to the
    keys unless the name is ["__proto__"], and fails, as everything
    after it, once ["hasOwnProperty"] is a key.  So keys are never
    removed, every operation other than these three leaves the keys as
    they are, only the names given become keys, and ["__proto__"]
    never does. *)
Theorem registry_keys_step (__DEV__ : bool) (op : Op U) w :
  aggregateKeys (step __DEV__ op w) =
    (if __DEV__ then keysAfter (aggregateKeys w) (aggregateNamesOf op)
     else aggregateKeys w) /\
  profileKeys (step __DEV__ op w) =
    (if enableProfile w then keysAfter (profileKeys w) (profileNamesOf op)
     else profileKeys w) /\
  aggregateKeys w ⊆ aggregateKeys (step __DEV__ op w) /\
  aggregateKeys (step __DEV__ op w) ⊆
    aggregateKeys w ∪ list_to_set (aggregateNamesOf op) /\
  profileKeys w ⊆ profileKeys (step __DEV__ op w) /\
  profileKeys (step __DEV__ op w) ⊆
    profileKeys w ∪ list_to_set (profileNamesOf op) /\
  ("__proto__" ∉ aggregateKeys w ->
   "__proto__" ∉ aggregateKeys (step __DEV__ op w)) /\
  ("__proto__" ∉ profileKeys w ->
   "__proto__" ∉ profileKeys (step __DEV__ op w)).
Proof.
  assert (Hkeys :
    aggregateKeys (step __DEV__ op w) =
      (if __DEV__ then keysAfter (aggregateKeys w) (aggregateNamesOf op)
       else aggregateKeys w) /\
    profileKeys (step __DEV__ op w) =
      (if enableProfile w then keysAfter (profileKeys w) (profileNamesOf op)
       else profileKeys w)).
  { assert (Hsame : forall w',
              aggregateKeys w' = aggregateKeys w ->
              profileKeys w' = profileKeys w ->
              aggregateNamesOf op = [] -> profileNamesOf op = [] ->
              aggregateKeys w' =
                (if __DEV__ then keysAfter (aggregateKeys w) (aggregateNamesOf op)
                 else aggregateKeys w) /\
              profileKeys w' =
                (if enableProfile w then keysAfter (profileKeys w) (profileNamesOf op)
                 else profileKeys w)).
    { intros w' -> -> -> ->. cbn. split; [by destruct __DEV__ |].
      by destruct (enableProfile w). }
    assert (Hst : forall w', Stable w w' ->
              aggregateNamesOf op = [] -> profileNamesOf op = [] ->
              aggregateKeys w' =
                (if __DEV__ then keysAfter (aggregateKeys w) (aggregateNamesOf op)
                 else aggregateKeys w) /\
              profileKeys w' =
                (if enableProfile w then keysAfter (profileKeys w) (profileNamesOf op)
                 else profileKeys w)).
    { intros w' H. apply Stable_keys in H as [Ha Hp]. by apply Hsame. }
    destruct op as [b | n f | o ns | c h | c h | n h | n h | fuel c t a |
                    n s | s | n h | n h]; cbn [step].
    - by apply Hsame.
    - cbn [aggregateNamesOf profileNamesOf].
      split.
      + destruct __DEV__; [apply keys_instrument | done].
      + unfold profileKeys.
        destruct (instrument_frame __DEV__ n f w) as (-> & _).
        by destruct (enableProfile w).
    - cbn [aggregateNamesOf profileNamesOf].
      split.
      + destruct __DEV__; [apply keys_instrumentMethods |].
        by rewrite instrumentMethods_production_state.
      + unfold profileKeys.
        destruct (instrumentMethods_frame __DEV__ o ns w) as (-> & _).
        by destruct (enableProfile w).
    - apply Hsame; try done; destruct c as [g | wid]; try done; cbn;
        by destruct (wrappers w !! wid).
    - apply Hsame; try done; destruct c as [g | wid]; try done; cbn;
        by destruct (wrappers w !! wid).
    - cbn [aggregateNamesOf profileNamesOf].
      split.
      + destruct __DEV__; [| done]. rewrite <- keys_aggregateArray.
        unfold attachAggregateHandler, bind.
        by destruct (aggregateArray n w) as [[r | e |] w1].
      + unfold profileKeys.
        destruct (attachAggregateHandler_frame __DEV__ n h w) as (-> & _).
        by destruct (enableProfile w).
    - destruct (detachAggregateHandler_frame __DEV__ n h w) as (Ha & Hp & _).
      apply Hsame; try done; unfold aggregateKeys, profileKeys; congruence.
    - apply Hst; [| done | done].
      eapply stable_callInstrumented. apply surjective_pairing.
    - apply Hst; [| done | done]. eapply stable_profile. apply surjective_pairing.
    - apply Hst; [| done | done]. eapply stable_stop. apply surjective_pairing.
    - cbn [aggregateNamesOf profileNamesOf].
      pose proof (attachProfileHandler_frame n h w) as Hf.
      split.
      + apply (f_equal aggregateKeys) in Hf. unfold aggregateKeys in *.
        cbn in Hf. rewrite Hf. by destruct __DEV__.
      + destruct (enableProfile w) eqn:Hen;
          [by apply keys_attachProfileHandler |].
        unfold attachProfileHandler. by rewrite Hen.
    - pose proof (detachProfileHandler_frame n h w) as Hf.
      apply Hsame; try done; [| apply keys_detachProfileHandler].
      apply (f_equal aggregateKeys) in Hf. exact Hf. }
  destruct Hkeys as [Ha Hp]. split; [exact Ha |]. split; [exact Hp |].
  rewrite Ha, Hp.
  destruct (keysAfter_bounds (aggregateKeys w) (aggregateNamesOf op)) as [H1 H2].
  destruct (keysAfter_bounds (profileKeys w) (profileNamesOf op)) as [H3 H4].
  split; [by destruct __DEV__ |].
  split; [destruct __DEV__; [done | apply union_subseteq_l] |].
  split; [by destruct (enableProfile w) |].
  split; [destruct (enableProfile w); [done | apply union_subseteq_l] |].
  split.
  - intros H. destruct __DEV__; [by apply keysAfter_never_proto | done].
  - intros H. destruct (enableProfile w); [by apply keysAfter_never_proto | done].
Qed.

(** C7: while profiling is disabled, attaching or detaching a profile
    handler returns at once and changes nothing at all in the module
    state. *)
Theorem profile_registry_frozen_when_disabled w n (h : ProfileHandler U) :
  enableProfile w = false ->
  attachProfileHandler n h w = (Ok tt, w) /\
  detachProfileHandler n h w = (Ok tt, w).
Proof.
  intros H. unfold attachProfileHandler, detachProfileHandler. by rewrite H.
Qed.

(** ** Calls of instrumented functions *)

Lemma pushContext_entered w wid wr this args :
  wrappers w !! wid = Some wr ->
  pushContext wid
    (mkContext (length (array w (aggregateHandlers wr))) (length (handlers wr))
               this args NOT_INVOKED) w = (Ok tt, entered w wid wr this args).
Proof.
  intros Hwr. unfold pushContext.
  rewrite (bind_step _ _ w wr w) by (unfold getWrapper; by rewrite Hwr). done.
Qed.


(** The slow path of a call: the context is pushed, the chain runs,
    and the innermost context is popped. *)
Lemma slow_path fuel w wid wr this args :
  wrappers w !! wid = Some wr ->
  array w (aggregateHandlers wr) <> [] \/ handlers wr <> [] ->
  instrumentedCallback (S fuel) wid this args w =
    (let* _ := invokeHandlers fuel wid in
     let* context := popContext wid in
     match c4 context with
     | NOT_INVOKED => throw notInvokedError
     | Returned v => ret v
     end) (entered w wid wr this args).
Proof.
  intros Hwr Hsome.
  cbn [instrumentedCallback]. unfold instrumentedCallback_body.
  rewrite (bind_step _ _ w wr w) by (unfold getWrapper; by rewrite Hwr).
  rewrite (bind_step _ _ w (array w (aggregateHandlers wr)) w) by done.
  assert (E : (length (array w (aggregateHandlers wr)) =? 0)
              && (length (handlers wr) =? 0) = false).
  { destruct Hsome as [Hn | Hn].
    - destruct (array w (aggregateHandlers wr)); [done | reflexivity].
    - destruct (handlers wr); [done |]. apply andb_false_r. }
  rewrite E.
  by rewrite (bind_step _ _ _ _ _ (pushContext_entered w wid wr this args Hwr)).
Qed.

(** Popping when the innermost context has the slot [s]. *)
Lemma popContext_top w wid s :
  topSlot w wid = Some s ->
  exists top wr,
    wrappers w !! wid = Some wr /\ last (contexts wr) = Some top /\ c4 top = s /\
    popContext wid w =
      (Ok top,
       set_wrappers
         (<[wid := set_contexts (removelast (contexts wr)) wr]> (wrappers w)) w).
Proof.
  unfold topSlot. destruct (wrappers w !! wid) as [wr |] eqn:Hwr; [| done].
  destruct (last (contexts wr)) as [top |] eqn:Htop; [| done].
  intros [= <-]. exists top, wr. split; [done |]. split; [done |].
  split; [done |]. unfold popContext.
  rewrite (bind_step _ _ w wr w) by (unfold getWrapper; by rewrite Hwr).
  rewrite Htop. cbn [callable]. by rewrite (bind_step _ _ w top w).
Qed.



(** A call of a wrapper whose handlers all proceed exactly once
    returns, and logs the handlers from the last one to the first one,
    aggregate handlers before instance handlers, then the original
    function. *)
Lemma ordered_call fuel w wid wr this args :
  wrappers w !! wid = Some wr ->
  Forall (fun h => Once (hbody h (name wr))) (array w (aggregateHandlers wr)) ->
  Forall (fun h => Once (hbody h (name wr))) (handlers wr) ->
  (forall t a, Quiet (originalFunction wr t a)) ->
  length (array w (aggregateHandlers wr)) + length (handlers wr) + 2 <= fuel ->
  exists v w' fr,
    instrumentedCallback fuel wid this args w = (Ok v, w') /\
    log w' =
      log w
        ++ countdown wid (length (contexts wr)) Aggregate
             (array w (aggregateHandlers wr))
             (length (array w (aggregateHandlers wr)))
        ++ countdown wid (length (contexts wr)) Instance (handlers wr)
             (length (handlers wr))
        ++ [EvOriginal wid fr this args; EvReturn wid fr this args v].
Proof.
  intros Hwr Haggs Hinsts Hq Hfuel.
  destruct fuel as [| n]; [lia |].
  destruct (decide (array w (aggregateHandlers wr) = [] /\ handlers wr = []))
    as [[E1 E2] | Hsome].
  - (* no handler at all *)
    cbn [instrumentedCallback]. unfold instrumentedCallback_body.
    rewrite (bind_step _ _ w wr w) by (unfold getWrapper; by rewrite Hwr).
    rewrite (bind_step _ _ w (array w (aggregateHandlers wr)) w) by done.
    rewrite E1, E2. cbn [length Nat.eqb andb countdown app].
    destruct (Quiet_run _ noCallback (instrumentedCallback n) (Hq this args)
                (client w)) as (v & u & Hrun).
    specialize (Hrun (set_log (log w ++ [EvOriginal wid None this args]) w)
                  eq_refl).
    exists v. eexists. exists None. split.
    + unfold applyOriginal. unfold bind at 1. cbn [emit]. unfold bind at 1.
      rewrite Hrun. unfold bind. cbn. reflexivity.
    + cbn. by rewrite <- app_assoc.
  - (* the chain *)
    rewrite slow_path with (wr := wr); [| done |].
    2:{ destruct (array w (aggregateHandlers wr)); [| by left].
        destruct (handlers wr); [| by right]. by destruct Hsome. }
    destruct (ordered_chain wid (name wr) (originalFunction wr)
                (aggregateHandlers wr) (array w (aggregateHandlers wr))
                (handlers wr) Haggs Hinsts Hq n
                (entered w wid wr this args) (length (contexts wr))
                (mkContext (length (array w (aggregateHandlers wr)))
                           (length (handlers wr)) this args NOT_INVOKED))
      as (w2 & v & Hrun & Hl2 & Ht2).
    { exists (set_contexts
                (contexts wr ++
                   [mkContext (length (array w (aggregateHandlers wr)))
                              (length (handlers wr)) this args NOT_INVOKED]) wr).
      split.
      { cbn. apply list_lookup_insert_eq. by eapply lookup_lt_Some. }
      repeat split; try done.
      - cbn. rewrite length_app. cbn. lia.
      - cbn. by apply list_lookup_middle. }
    { cbn. lia. }
    { cbn. lia. }
    { cbn. lia. }
    rewrite (bind_step _ _ _ _ _ Hrun).
    destruct (popContext_top _ _ _ Ht2) as (top' & wr2 & _ & _ & Hc4 & Hpop).
    rewrite (bind_step _ _ _ _ _ Hpop). rewrite Hc4.
    exists v. eexists. exists (Some (length (contexts wr))).
    split; [reflexivity |]. exact Hl2.
Qed.


(** C10 (amended): when no handler and no wrapped function catches the
    exception of a call it makes, the value a call of a wrapper
    returns is the value the original function returned, for this very
    invocation, when applied to the receiver and arguments of the
    call, whatever the handlers around it did: the trace says so, and
    when the original function is a pure function [g] the value is
    [g this args].  With handlers that each proceed once the call does
    return. *)
Theorem wrapper_returns_original_value fuel w wid this args :
  (catchFree w ->
   forall v w',
     instrumentedCallback fuel wid this args w = (Ok v, w') ->
     exists fr, (fr = None \/ fr = Some (depth w wid)) /\
       lastReturn wid fr (trace w w') = Some (this, args, v)) /\
  (catchFree w ->
   forall g v w',
     pureOriginal wid g w ->
     instrumentedCallback fuel wid this args w = (Ok v, w') ->
     v = g this args) /\
  (forall wr,
     wrappers w !! wid = Some wr ->
     Forall (fun h => Once (hbody h (name wr))) (array w (aggregateHandlers wr)) ->
     Forall (fun h => Once (hbody h (name wr))) (handlers wr) ->
     (forall t a, Quiet (originalFunction wr t a)) ->
     length (array w (aggregateHandlers wr)) + length (handlers wr) + 2 <= fuel ->
     exists v w', instrumentedCallback fuel wid this args w = (Ok v, w')).
Proof.
  split; [| split].
  - intros Hcf v w' H.
    destruct (proj2 (chain_invariant fuel) _ _ _ _ _ _ Hcf H)
      as (evs & (_ & _ & Hl & _) & fr & Hfr & Hret).
    exists fr. split; [exact Hfr |]. by rewrite (trace_app _ _ _ Hl).
  - intros Hcf g v w' Hp H. by eapply pure_original_value.
  - intros wr Hwr Haggs Hinsts Hq Hfuel.
    destruct (ordered_call fuel w wid wr this args Hwr Haggs Hinsts Hq Hfuel)
      as (v & w' & _ & Hrun & _).
    by exists v, w'.
Qed.



(** ** Profiling sessions *)







(** [stop] on the module state is [runAll] on the client state. *)
Lemma forEach_runAll (stops : list (StopHandler U)) w :
  forEach stops liftClient w =
    (fst (runAll stops (client w)), set_client (snd (runAll stops (client w))) w).
Proof.
  revert w. induction stops as [| s stops IH]; intros w; cbn.
  - by rewrite set_client_id.
  - unfold bind, liftClient.
    destruct (s (client w)) as [[[] | e |] u1]; [| done | done].
    by rewrite IH.
Qed.



Lemma runAll_app (l1 l2 : list (StopHandler U)) u :
  runAll (l1 ++ l2) u =
    match runAll l1 u with
    | (Ok _, u1) => runAll l2 u1
    | (Thrown e, u1) => (Thrown e, u1)
    | (OutOfFuel, u1) => (OutOfFuel, u1)
    end.
Proof.
  revert u. induction l1 as [| s l1 IH]; intros u; cbn; [done |].
  destruct (s u) as [[[] | e |] u1]; [apply IH | done | done].
Qed.

(** C5 (amended): every call of [stop] on a session calls each
    collected stop callback once more, in order; [k] calls of [stop]
    call each of them [k] times (up to the first callback that
    throws). *)
Theorem stop_runs_callbacks_each_time k (stops : list (StopHandler U)) w :
  times k (stop (Profiler (Some stops))) w =
    (fst (runAll (concat (replicate k stops)) (client w)),
     set_client (snd (runAll (concat (replicate k stops)) (client w))) w).
Proof.
  revert w. induction k as [| k IH]; intros w.
  - cbn. by rewrite set_client_id.
  - cbn [times replicate concat stop]. rewrite runAll_app.
    unfold bind. rewrite forEach_runAll.
    destruct (runAll stops (client w)) as [[[] | e |] u1]; cbn [fst snd];
      [| done | done].
    by rewrite IH.
Qed.





End Claims.
(** * The claims on the example worlds *)

Lemma catchFree_exOrdered : catchFree exOrdered.
Proof. unfold catchFree. vm_compute. plain_code. Qed.












(** C5 as stated fails: a second [stop] runs the stop callbacks again. *)
Lemma C5_counterexample :
  profile "y" (VNum 5) exProfile = (Ok exSession, exStarted) /\
  client (snd (stop exSession exStarted)) = [2; 1; 11; 12] /\
  client (snd ((let* _ := stop exSession in stop exSession) exStarted)) =
    [2; 1; 11; 12; 11; 12] /\
  (let* _ := stop exSession in stop exSession) exStarted <> stop exSession exStarted.
Proof.
  split; [reflexivity |]. split; [reflexivity |]. split; [reflexivity |].
  intros H. apply (f_equal (fun r => client (snd r))) in H.
  vm_compute in H. discriminate.
Qed.



(** C7 on the initial state of a production build. *)
Lemma C7_witness :
  attachProfileHandler "y" (marker 1) (initial false []) =
    (Ok tt, initial false []) /\
  detachProfileHandler "y" (marker 1) (initial false []) =
    (Ok tt, initial false []).
Proof.
  apply (profile_registry_frozen_when_disabled (initial false []) "y" (marker 1)).
  reflexivity.
Defined.

(** C8 as stated fails: [instrument] is no attach operation, and it
    creates a key of the aggregate registry. *)
Lemma C8_counterexample :
  isAttach (OpInstrument "x" answer) = false /\
  aggregateKeys (step true (OpInstrument "x" answer) (initial true 0))
    <> aggregateKeys (initial true 0).
Proof.
  split; [reflexivity |]. intros H.
  assert (Hin : "x" ∈ aggregateKeys (step true (OpInstrument "x" answer) (initial true 0))).
  { unfold aggregateKeys. apply elem_of_dom. eexists. reflexivity. }
  rewrite H in Hin. unfold aggregateKeys in Hin. cbn in Hin.
  rewrite dom_empty_L in Hin. by apply not_elem_of_empty in Hin.
Qed.



(** C10, amended, on two aggregate and two instance handlers. *)
Lemma C10_witness :
  exists fr,
    (fr = None \/ fr = Some (depth exOrdered 0)) /\
    lastReturn 0 fr
      (trace exOrdered (snd (instrumentedCallback 6 0 (VNum 7) [] exOrdered))) =
      Some (VNum 7, [], VNum 42).
Proof.
  apply (proj1 (wrapper_returns_original_value 6 exOrdered 0 (VNum 7) [])
           catchFree_exOrdered
           (VNum 42) (snd (instrumentedCallback 6 0 (VNum 7) [] exOrdered))).
  vm_compute. reflexivity.
Defined.

(** C10 as stated fails: the original function returns its receiver,
    the chain of the call [f.call(1)] does invoke it, and the call
    returns 2: the handler caught the failure of a nested call
    [f.call(2)], whose context stayed on the stack. *)
Lemma C10_counterexample :
  pureOriginal 0 (fun this _ => this) exRetrying /\
  fst (instrumentedCallback 6 0 (VNum 1) [] exRetrying) = Ok (VNum 2) /\
  callsOf 0 (trace exRetrying (snd (instrumentedCallback 6 0 (VNum 1) [] exRetrying))) =
    [ToHandler Instance 0; ToHandler Instance 0; ToOriginal (VNum 2) []].
Proof.
  split; [by exists wrRetrying |]. split; vm_compute; reflexivity.
Qed.

(** [exNested] is the world of the call [f.call(1)] once its context
    is pushed, its instance counter decremented, its handler entered
    and the guard of that handler set. *)
Example nested_world_reached :
  set_client 1
    (snd (emit (EvHandler 0 0 Instance 0 7)
            (snd (updContext 0 0 (set_c1 0)
                    (entered exRecursive 0 wrRecursive (VNum 1) []))))) =
  exNested.
Proof. reflexivity. Qed.

(** The recursive scenario as a whole: the outer call returns the
    value of the original function for its own receiver. *)
Example recursive_call_completes :
  fst (instrumentedCallback 6 0 (VNum 1) [] exRecursive) = Ok (VNum 1) /\
  wrappers (snd (instrumentedCallback 6 0 (VNum 1) [] exRecursive)) =
    wrappers exRecursive.
Proof. split; reflexivity. Qed.
(** * Further properties *)

(** ** The registries *)

Section RegistryFacts.
Context {U : Type}.
Implicit Types (w : World U) (wr : Wrapper U).

Lemma removeFromArray_absent {A} (same : A -> A -> bool) (l : list A) (x : A) :
  Forall (fun y => same y x = false) l -> removeFromArray same l x = l.
Proof.
  induction 1 as [| y l Hy _ IH]; cbn; [done |]. by rewrite Hy, IH.
Qed.

Lemma removeFromArray_snoc {A} (same : A -> A -> bool) (l : list A) (x : A) :
  Forall (fun y => same y x = false) l -> same x x = true ->
  removeFromArray same (l ++ [x]) x = l.
Proof.
  intros Hl Hx. induction Hl as [| y l Hy _ IH]; cbn; [by rewrite Hx |].
  by rewrite Hy, IH.
Qed.

Lemma not_attached (h : Handler U) hs :
  ~ attached h hs -> Forall (fun y => sameHandler y h = false) hs.
Proof.
  unfold attached. rewrite <- Forall_Exists_neg. intros H.
  eapply Forall_impl; [exact H |].
  intros y Hy. unfold sameHandler. by apply Nat.eqb_neq.
Qed.

Lemma not_attachedProfile (h : ProfileHandler U) hs :
  ~ attachedProfile h hs -> Forall (fun y => sameProfileHandler y h = false) hs.
Proof.
  unfold attachedProfile. rewrite <- Forall_Exists_neg. intros H.
  eapply Forall_impl; [exact H |].
  intros y Hy. unfold sameProfileHandler. by apply Nat.eqb_neq.
Qed.

Lemma set_handlers_id wr : set_handlers (handlers wr) wr = wr.
Proof. by destruct wr. Qed.

Lemma set_wrappers_id w : set_wrappers (wrappers w) w = w.
Proof. by destruct w. Qed.

Lemma set_aggregate_id w :
  set_aggregate (aggregateHandlersByName w) (arrays w) w = w.
Proof. by destruct w. Qed.

Lemma insert_array_id w r : <[r := array w r]> (arrays w) = arrays w.
Proof.
  unfold array. destruct (arrays w !! r) as [l |] eqn:E; cbn.
  - by apply list_insert_id.
  - apply list_insert_ge. by apply lookup_ge_None.
Qed.

(** X1: detaching a handler that is not attached changes nothing in
    the module state, for the three kinds of handlers; the two
    registry operations return, unless the check of the registry
    fails because ["hasOwnProperty"] is a key of it. *)
Theorem detach_unattached_is_noop (__DEV__ : bool) w :
  (forall f h, ~ attached h (instanceList w f) -> detachHandler f h w = w) /\
  (forall n h, ~ attached h (aggregateList w n) ->
     detachAggregateHandler __DEV__ n h w =
       (if __DEV__ && negb (bool_decide (intact (aggregateHandlersByName w)))
        then Thrown typeError else Ok tt, w)) /\
  (forall n h, ~ attachedProfile h (profileList w n) ->
     detachProfileHandler n h w =
       (if enableProfile w && negb (bool_decide (intact (profileHandlersByName w)))
        then Thrown typeError else Ok tt, w)).
Proof.
  split; [| split].
  - intros [g | wid] h Hh; [done |]. cbn in *.
    destruct (wrappers w !! wid) as [wr |] eqn:E; [| done].
    rewrite (removeFromArray_absent _ _ _ (not_attached _ _ Hh)).
    by rewrite set_handlers_id, (list_insert_id _ _ _ E), set_wrappers_id.
  - intros n h Hh. destruct __DEV__; [| done].
    rewrite detachAggregateHandler_cases. unfold aggregateList, intact in *.
    destruct (own (aggregateHandlersByName w) !! "hasOwnProperty"); [done |].
    destruct (own (aggregateHandlersByName w) !! n) as [r |]; [| done].
    rewrite (removeFromArray_absent _ _ _ (not_attached _ _ Hh)).
    by rewrite insert_array_id, set_aggregate_id.
  - intros n h Hh. destruct (enableProfile w) eqn:Hen.
    + rewrite detachProfileHandler_cases by done. unfold profileList, intact in *.
      destruct (own (profileHandlersByName w) !! "hasOwnProperty"); [done |].
      destruct (own (profileHandlersByName w) !! n) as [hs |] eqn:E; [| done].
      cbn in Hh.
      rewrite (removeFromArray_absent _ _ _ (not_attachedProfile _ _ Hh)).
      rewrite (insert_id _ _ _ E). cbn.
      destruct w as [a r [o p] e ws c l]. done.
    + unfold detachProfileHandler. by rewrite Hen.
Qed.

(** X2: attaching an instance handler that was not attached and
    detaching it again gives back the very same module state. *)
Theorem attachHandler_detachHandler (f : Callable U) (h : Handler U) w :
  ~ attached h (instanceList w f) ->
  detachHandler f h (attachHandler f h w) = w.
Proof.
  intros Hh. destruct f as [g | wid]; [done |]. cbn in *.
  destruct (wrappers w !! wid) as [wr |] eqn:E; [| by cbn; rewrite E].
  assert (Hlt : wid < length (wrappers w)) by (by eapply lookup_lt_Some).
  cbn. rewrite list_lookup_insert_eq by done. cbn.
  rewrite removeFromArray_snoc;
    [| by apply not_attached | unfold sameHandler; apply Nat.eqb_refl].
  rewrite list_insert_insert_eq.
  replace (set_handlers (handlers wr) (set_handlers (handlers wr ++ [h]) wr))
    with wr by (by destruct wr).
  rewrite (list_insert_id _ _ _ E). by destruct w.
Qed.

Lemma named_Stable w w' : Stable w w' -> named w -> named w'.
Proof.
  intros [_ Hw] H. unfold named in *.
  set (P := fun wr : Wrapper U =>
              displayName wr = "(instrumented " +:+ name wr +:+ ")").
  assert (H1 : Forall P (set_contexts [] <$> wrappers w)).
  { apply Forall_fmap. eapply Forall_impl; [exact H |]. by intros wr. }
  rewrite <- Hw in H1. apply Forall_fmap in H1.
  eapply Forall_impl; [exact H1 |]. by intros wr.
Qed.

Lemma named_instrument (__DEV__ : bool) n (f : Fn U) w :
  named w -> named (snd (instrument __DEV__ n f w)).
Proof.
  intros H. destruct __DEV__; [| exact H]. rewrite instrument_cases.
  destruct (aggregateArray n w) as [o w1] eqn:E.
  destruct (aggregateArray_frame _ _ _ _ E) as (_ & _ & Hw & _).
  unfold named in *. destruct o as [r | e |]; cbn; rewrite Hw; [| done | done].
  apply Forall_app. split; [done |].
  constructor; [done | constructor].
Qed.

Lemma named_instrumentMethods (__DEV__ : bool) (o : gmap string (Callable U)) ns w :
  named w -> named (snd (instrumentMethods __DEV__ o ns w)).
Proof.
  revert o w. induction ns as [| [key n] ns IH]; intros o w H; [done |].
  cbn [instrumentMethods]. unfold bind. destruct __DEV__ eqn:Edev.
  - pose proof (named_instrument true n (asFunction (o !! key)) w H) as H1.
    destruct (instrument true n (asFunction (o !! key)) w) as [[c | e |] w1];
      [by apply IH | done | done].
  - destruct (o !! key); [by apply IH | done].
Qed.

Lemma named_set_handlers w wid wr hs :
  wrappers w !! wid = Some wr -> named w ->
  named (set_wrappers (<[wid := set_handlers hs wr]> (wrappers w)) w).
Proof.
  intros Hwr H. unfold named in *. cbn.
  apply (Forall_insert _ _ _ _ H).
  rewrite Forall_lookup in H. exact (H wid wr Hwr).
Qed.

Lemma named_step (__DEV__ : bool) (op : Op U) w :
  named w -> named (step __DEV__ op w).
Proof.
  intros H.
  destruct op as [b | n f | o ns | c h | c h | n h | n h | fuel c t a |
                  n s | s | n h | n h]; cbn [step].
  - exact H.
  - by apply named_instrument.
  - by apply named_instrumentMethods.
  - destruct c as [g | wid]; [done |]. cbn.
    destruct (wrappers w !! wid) as [wr |] eqn:E; [| done].
    by apply named_set_handlers.
  - destruct c as [g | wid]; [done |]. cbn.
    destruct (wrappers w !! wid) as [wr |] eqn:E; [| done].
    by apply named_set_handlers.
  - destruct (attachAggregateHandler_frame __DEV__ n h w) as (_ & _ & Hw & _).
    unfold named in *. by rewrite Hw.
  - destruct (detachAggregateHandler_frame __DEV__ n h w) as (_ & _ & _ & Hw & _).
    unfold named in *. by rewrite Hw.
  - eapply named_Stable; [| exact H].
    eapply stable_callInstrumented. apply surjective_pairing.
  - eapply named_Stable; [| exact H].
    eapply stable_profile. apply surjective_pairing.
  - eapply named_Stable; [| exact H].
    eapply stable_stop. apply surjective_pairing.
  - pose proof (attachProfileHandler_frame n h w) as Hf.
    apply (f_equal (@wrappers U)) in Hf. cbn in Hf. unfold named. by rewrite Hf.
  - pose proof (detachProfileHandler_frame n h w) as Hf.
    apply (f_equal (@wrappers U)) in Hf. cbn in Hf. unfold named. by rewrite Hf.
Qed.

(** The array a wrapper holds has the handlers registered under the
    name of the wrapper. *)
Lemma sound_aggregateList w wid wr :
  sound w -> wrappers w !! wid = Some wr ->
  array w (aggregateHandlers wr) = aggregateList w (name wr).
Proof.
  intros Hs Hwr. pose proof (sound_wrapper _ _ _ Hs Hwr) as H.
  unfold aggregateList.
  destruct (own (aggregateHandlersByName w) !! name wr); [by subst | apply H].
Qed.

(** X3: in every state the operations of the module can reach, the
    registry gives each of its keys an array of its own and
    ["__proto__"] is no key; each wrapper holds the array the registry
    holds under its name, or, when its name is ["__proto__"], an empty
    array that nothing else holds; so the aggregate handlers a wrapper
    runs are those registered under its name; and each wrapper has the
    display name made from its name. *)
Theorem reachable_sound (__DEV__ : bool) (ops : list (Op U)) (u : U) :
  sound (steps __DEV__ ops (initial __DEV__ u)) /\
  named (steps __DEV__ ops (initial __DEV__ u)) /\
  forall wid wr,
    wrappers (steps __DEV__ ops (initial __DEV__ u)) !! wid = Some wr ->
    array (steps __DEV__ ops (initial __DEV__ u)) (aggregateHandlers wr) =
    aggregateList (steps __DEV__ ops (initial __DEV__ u)) (name wr).
Proof.
  assert (H : forall w, sound w /\ named w ->
                        sound (steps __DEV__ ops w) /\ named (steps __DEV__ ops w)).
  { induction ops as [| op ops IH]; intros w Hw; [done |].
    unfold steps in *. cbn [foldl]. apply IH. destruct Hw as [Hs Hn].
    split; [by apply sound_step | by apply named_step]. }
  assert (H0 : sound (initial __DEV__ u) /\ named (initial __DEV__ u)).
  { split; [apply sound_initial | constructor]. }
  destruct (H _ H0) as [Hs Hn]. split; [exact Hs |]. split; [exact Hn |].
  intros wid wr Hwr. by eapply sound_aggregateList.
Qed.

Lemma array_insert_eq w r l :
  r < length (arrays w) ->
  array (set_aggregate (aggregateHandlersByName w) (<[r := l]> (arrays w)) w) r = l.
Proof. intros H. unfold array. cbn. by rewrite list_lookup_insert_eq. Qed.

Lemma array_insert_ne w r r' l :
  r' <> r ->
  array (set_aggregate (aggregateHandlersByName w) (<[r := l]> (arrays w)) w) r' =
  array w r'.
Proof. intros H. unfold array. cbn. by rewrite list_lookup_insert_ne. Qed.

Lemma registers_sound w n :
  sound w ->
  registers (aggregateHandlersByName w) n =
    bool_decide (intact (aggregateHandlersByName w)) &&
    bool_decide (n <> "__proto__").
Proof.
  intros Hs. unfold registers, intact. f_equal. apply bool_decide_ext.
  split; [| by left]. intros [H | [r Hr]]; [done |]. intros ->.
  rewrite (sound_proto _ Hs) in Hr. done.
Qed.

Lemma aggregateArray_intact n w :
  intact (aggregateHandlersByName w) ->
  exists r w1, aggregateArray n w = (Ok r, w1).
Proof.
  unfold intact. intros H. rewrite aggregateArray_cases, H.
  destruct (own (aggregateHandlersByName w) !! n); eauto.
Qed.

Lemma aggregateList_attach (__DEV__ : bool) w n n' (h : Handler U) :
  sound w ->
  aggregateList (snd (attachAggregateHandler __DEV__ n h w)) n' =
    (if __DEV__ && registers (aggregateHandlersByName w) n && bool_decide (n' = n)
     then aggregateList w n' ++ [h] else aggregateList w n').
Proof.
  intros Hs. rewrite registers_sound by done.
  unfold attachAggregateHandler. destruct __DEV__; [| done]. cbn [andb].
  unfold bind. case_bool_decide as Hint; cbn [andb].
  2:{ by rewrite aggregateArray_shadowed. }
  destruct (aggregateArray_intact n w Hint) as (r & w1 & E). rewrite E.
  destruct (aggregateArray_sound _ _ _ _ Hs E)
    as (Hs1 & _ & Hlt & Harr & Hlists & Hone & Hkey & _).
  rewrite <- (Hlists n'). unfold aggregateList at 1. cbn.
  destruct (own (aggregateHandlersByName w1) !! n') as [r' |] eqn:E'.
  - destruct (decide (r' = r)) as [-> | Hr].
    + destruct (Hone _ E') as [-> Hn].
      rewrite !bool_decide_eq_true_2 by done. cbn.
      rewrite array_insert_eq by done. by rewrite Harr, <- Hlists.
    + rewrite array_insert_ne by done.
      replace (bool_decide (n <> "__proto__") && bool_decide (n' = n)) with false.
      * unfold aggregateList. by rewrite E'.
      * symmetry. apply andb_false_iff.
        destruct (decide (n <> "__proto__")) as [Hn | Hn];
          [| left; by apply bool_decide_eq_false_2].
        right. apply bool_decide_eq_false_2. intros ->.
        rewrite (Hkey Hn) in E'. congruence.
  - replace (bool_decide (n <> "__proto__") && bool_decide (n' = n)) with false.
    + unfold aggregateList. by rewrite E'.
    + symmetry. apply andb_false_iff.
      destruct (decide (n <> "__proto__")) as [Hn | Hn];
        [| left; by apply bool_decide_eq_false_2].
      right. apply bool_decide_eq_false_2. intros ->.
      rewrite (Hkey Hn) in E'. congruence.
Qed.

Lemma aggregateList_detach (__DEV__ : bool) w n n' (h : Handler U) :
  sound w ->
  aggregateList (snd (detachAggregateHandler __DEV__ n h w)) n' =
    (if __DEV__ && bool_decide (intact (aggregateHandlersByName w))
        && bool_decide (n' = n)
     then removeFromArray sameHandler (aggregateList w n') h
     else aggregateList w n').
Proof.
  intros Hs. pose proof (sound_refs _ Hs) as Hok.
  destruct __DEV__; [| done]. cbn [andb].
  rewrite detachAggregateHandler_cases. unfold intact.
  destruct (own (aggregateHandlersByName w) !! "hasOwnProperty") eqn:E0; [done |].
  rewrite bool_decide_eq_true_2 by done. cbn [andb].
  destruct (own (aggregateHandlersByName w) !! n) as [r |] eqn:E.
  - assert (Hlt : r < length (arrays w)) by (by eapply (proj1 Hok)).
    case_bool_decide as Hn.
    + subst n'. unfold aggregateList. cbn. rewrite E.
      by rewrite array_insert_eq.
    + unfold aggregateList. cbn.
      destruct (own (aggregateHandlersByName w) !! n') as [r' |] eqn:E'; [| done].
      apply array_insert_ne. intros ->. apply Hn. by eapply (proj2 Hok).
  - case_bool_decide as Hn; [| reflexivity]. subst n'.
    unfold aggregateList. cbn. by rewrite E.
Qed.

(** X4: in a state that follows the discipline of the registry,
    attaching an aggregate handler appends it to the handlers of its
    name and detaching removes its first occurrence there, provided
    ["hasOwnProperty"] is no key of the registry and, for attaching,
    the name is not ["__proto__"]; otherwise nothing is registered or
    removed; the handlers of every other name stay as they are. *)
Theorem aggregate_lists (__DEV__ : bool) w n n' (h : Handler U) :
  sound w ->
  aggregateList (snd (attachAggregateHandler __DEV__ n h w)) n' =
    (if __DEV__ && registers (aggregateHandlersByName w) n && bool_decide (n' = n)
     then aggregateList w n' ++ [h] else aggregateList w n') /\
  aggregateList (snd (detachAggregateHandler __DEV__ n h w)) n' =
    (if __DEV__ && bool_decide (intact (aggregateHandlersByName w))
        && bool_decide (n' = n)
     then removeFromArray sameHandler (aggregateList w n') h
     else aggregateList w n').
Proof.
  intros Hs. split; [by apply aggregateList_attach | by apply aggregateList_detach].
Qed.

Lemma intact_attachAggregateHandler (__DEV__ : bool) n (h : Handler U) w :
  n <> "hasOwnProperty" ->
  intact (aggregateHandlersByName (snd (attachAggregateHandler __DEV__ n h w))) <->
  intact (aggregateHandlersByName w).
Proof.
  intros Hn. unfold attachAggregateHandler. destruct __DEV__; [| done].
  unfold bind. rewrite aggregateArray_cases. unfold intact.
  destruct (own (aggregateHandlersByName w) !! "hasOwnProperty") eqn:E0;
    [cbn; by rewrite E0 |].
  destruct (own (aggregateHandlersByName w) !! n) as [r |] eqn:E; cbn;
    [by rewrite E0 |].
  rewrite own_setProperty by done. case_decide; [by rewrite E0 |].
  by rewrite lookup_insert_ne, E0.
Qed.

(** X5: attaching an aggregate handler that was not registered under
    the name and detaching it again leaves the handlers of every name
    as they were, for every name but ["hasOwnProperty"] (under which
    the handler stays, the check of the detaching failing). *)
Theorem attachAggregate_detachAggregate (__DEV__ : bool) w n n' (h : Handler U) :
  sound w ->
  n <> "hasOwnProperty" ->
  ~ attached h (aggregateList w n) ->
  aggregateList
    (snd (detachAggregateHandler __DEV__ n h
            (snd (attachAggregateHandler __DEV__ n h w)))) n' =
  aggregateList w n'.
Proof.
  intros Hs Hn Hh.
  rewrite (aggregateList_detach __DEV__ _ n n' h
             (sound_attachAggregateHandler __DEV__ n h w Hs)).
  rewrite (aggregateList_attach __DEV__ w n n' h Hs).
  rewrite (bool_decide_ext _ _ (intact_attachAggregateHandler __DEV__ n h w Hn)).
  rewrite registers_sound by done.
  destruct __DEV__; [| done]. cbn [andb].
  case_bool_decide as Hint; [| done]. cbn [andb].
  case_bool_decide as Hn'; [| by rewrite andb_false_r]. subst n'.
  rewrite andb_true_r. case_bool_decide as Hp.
  - apply removeFromArray_snoc; [by apply not_attached |].
    unfold sameHandler. apply Nat.eqb_refl.
  - by apply removeFromArray_absent, not_attached.
Qed.

Lemma profileList_attach w n n' (h : ProfileHandler U) :
  profileList (snd (attachProfileHandler n h w)) n' =
    (if enableProfile w && registers (profileHandlersByName w) n
        && bool_decide (n' = n)
     then profileList w n' ++ [h] else profileList w n').
Proof.
  destruct (enableProfile w) eqn:Hen;
    [| unfold attachProfileHandler; by rewrite Hen].
  rewrite attachProfileHandler_cases by done. cbn [andb].
  unfold registers, profileList.
  destruct (own (profileHandlersByName w) !! "hasOwnProperty") eqn:E0; [done |].
  rewrite bool_decide_eq_true_2 by done. cbn [andb snd].
  destruct (own (profileHandlersByName w) !! n) as [hs |] eqn:E; cbn.
  - rewrite bool_decide_eq_true_2 by eauto. cbn [andb].
    case_bool_decide as Hn'.
    + subst n'. by rewrite lookup_insert_eq, E.
    + by rewrite lookup_insert_ne.
  - destruct (decide (n = "__proto__")) as [Hn | Hn]; cbn.
    + rewrite bool_decide_eq_false_2; [done |]. by intros [? | [? ?]].
    + rewrite bool_decide_eq_true_2 by (by left). cbn [andb].
      case_bool_decide as Hn'.
      * subst n'. by rewrite lookup_insert_eq, E.
      * by rewrite lookup_insert_ne.
Qed.

Lemma profileList_detach w n n' (h : ProfileHandler U) :
  profileList (snd (detachProfileHandler n h w)) n' =
    (if enableProfile w && bool_decide (intact (profileHandlersByName w))
        && bool_decide (n' = n)
     then removeFromArray sameProfileHandler (profileList w n') h
     else profileList w n').
Proof.
  destruct (enableProfile w) eqn:Hen;
    [| unfold detachProfileHandler; by rewrite Hen].
  rewrite detachProfileHandler_cases by done. cbn [andb].
  unfold intact, profileList.
  destruct (own (profileHandlersByName w) !! "hasOwnProperty") eqn:E0; [done |].
  rewrite bool_decide_eq_true_2 by done. cbn [andb snd].
  destruct (own (profileHandlersByName w) !! n) as [hs |] eqn:E; cbn.
  - case_bool_decide as Hn'.
    + subst n'. by rewrite lookup_insert_eq, E.
    + by rewrite lookup_insert_ne.
  - case_bool_decide as Hn'; [| done]. subst n'. by rewrite E.
Qed.

Lemma flags_attachProfileHandler w n (h : ProfileHandler U) :
  n <> "hasOwnProperty" ->
  enableProfile (snd (attachProfileHandler n h w)) = enableProfile w /\
  (intact (profileHandlersByName (snd (attachProfileHandler n h w))) <->
   intact (profileHandlersByName w)).
Proof.
  intros Hn. destruct (enableProfile w) eqn:Hen;
    [| unfold attachProfileHandler; by rewrite Hen].
  rewrite attachProfileHandler_cases by done. unfold intact.
  destruct (own (profileHandlersByName w) !! "hasOwnProperty") eqn:E0;
    [cbn; by rewrite E0 |].
  cbn. split; [done |].
  destruct (own (profileHandlersByName w) !! n) as [hs |] eqn:E; cbn.
  - by rewrite lookup_insert_ne, E0.
  - case_decide; cbn; [by rewrite E0 |]. by rewrite lookup_insert_ne, E0.
Qed.

(** X6: attaching a profile handler appends it to the handlers of its
    name when profiling is enabled, ["hasOwnProperty"] is no key of
    the registry and the name is not ["__proto__"]; otherwise nothing
    is registered; attaching a handler that was not registered and
    detaching it again leaves the handlers of every name as they
    were, for every name but ["hasOwnProperty"]. *)
Theorem profile_lists w n n' (h : ProfileHandler U) :
  profileList (snd (attachProfileHandler n h w)) n' =
    (if enableProfile w && registers (profileHandlersByName w) n
        && bool_decide (n' = n)
     then profileList w n' ++ [h] else profileList w n') /\
  (n <> "hasOwnProperty" ->
   ~ attachedProfile h (profileList w n) ->
   profileList
     (snd (detachProfileHandler n h (snd (attachProfileHandler n h w)))) n' =
   profileList w n').
Proof.
  split; [apply profileList_attach |]. intros Hn Hh.
  rewrite profileList_detach, profileList_attach.
  destruct (flags_attachProfileHandler w n h Hn) as [-> Hi].
  rewrite (bool_decide_ext _ _ Hi).
  destruct (enableProfile w); [| done]. cbn [andb].
  unfold registers. fold (intact (profileHandlersByName w)).
  case_bool_decide as Hint; [| done]. cbn [andb].
  case_bool_decide as Hn'; [| by rewrite andb_false_r]. subst n'.
  rewrite andb_true_r. case_bool_decide as Hp.
  - apply removeFromArray_snoc; [by apply not_attachedProfile |].
    unfold sameProfileHandler. apply Nat.eqb_refl.
  - by apply removeFromArray_absent, not_attachedProfile.
Qed.

Lemma inert_step (op : Op U) w : inert w -> inert (step false op w).
Proof.
  intros (Hw & Ha & Hr).
  assert (Hst : forall w', Stable w w' -> inert w').
  { intros w' [(Ha' & Hr' & _) Hw']. rewrite Hw in Hw'. cbn in Hw'.
    apply fmap_nil_inv in Hw'. unfold inert. by rewrite Ha', Hr'. }
  destruct op as [b | n f | o ns | c h | c h | n h | n h | fuel c t a |
                  n s | s | n h | n h]; cbn [step]; try done.
  - by rewrite instrumentMethods_production_state.
  - destruct c as [g | wid]; [done |]. cbn. by rewrite Hw.
  - destruct c as [g | wid]; [done |]. cbn. by rewrite Hw.
  - apply Hst. eapply stable_callInstrumented. apply surjective_pairing.
  - apply Hst. eapply stable_profile. apply surjective_pairing.
  - apply Hst. eapply stable_stop. apply surjective_pairing.
  - pose proof (attachProfileHandler_frame n h w) as Hf.
    unfold inert. rewrite <- Hf in Hw, Ha, Hr. exact (conj Hw (conj Ha Hr)).
  - pose proof (detachProfileHandler_frame n h w) as Hf.
    unfold inert. rewrite <- Hf in Hw, Ha, Hr. exact (conj Hw (conj Ha Hr)).
Qed.

(** X7: in a production build ([__DEV__] off) no sequence of operations
    ever creates a wrapper, an aggregate key or an array; [instrument]
    gives the function back, and calling it runs the function itself,
    without any handler. *)
Theorem production_is_inert (ops : list (Op U)) (u : U) :
  inert (steps false ops (initial false u)) /\
  (forall n (f : Fn U) w, instrument false n f w = (Ok (Uninstrumented f), w)) /\
  (forall (f : Fn U) w fuel this args,
     Quiet (f this args) ->
     exists v u',
       callInstrumented fuel (Uninstrumented f) this args w =
         (Ok v, set_client u' w)).
Proof.
  split; [| split].
  - assert (H : forall w, inert w -> inert (steps false ops w)).
    { induction ops as [| op ops IH]; intros w Hw; [done |].
      unfold steps in *. cbn [foldl]. apply IH. by apply inert_step. }
    by apply H.
  - done.
  - intros f w fuel this args Hq. cbn.
    destruct (Quiet_run _ noCallback (instrumentedCallback fuel) Hq (client w))
      as (v & u' & Hrun).
    exists v, u'. by apply Hrun.
Qed.

End RegistryFacts.
(** ** Each handler is entered once *)

Section Counting.
Context {U : Type}.
Implicit Types (w : World U) (wr : Wrapper U) (evs : list Event).




















End Counting.

(** ** Calls that do not return *)

Section Unwinding.
Context {U : Type}.
Implicit Types (w x : World U) (wr : Wrapper U) (evs : list Event).













End Unwinding.

(** ** Profiling failures, the flag, [instrumentMethods] and sharing *)

Section ProfileFailures.
Context {U : Type}.
Implicit Types (w : World U).

Lemma forEach_app {A} (l1 l2 : list A) (f : A -> M U unit) w :
  forEach (l1 ++ l2) f w = (let* _ := forEach l1 f in forEach l2 f) w.
Proof.
  revert w. induction l1 as [| x l1 IH]; intros w; [done |].
  cbn. unfold bind. destruct (f x w) as [[[] | e |] w1]; [| done | done].
  rewrite IH. reflexivity.
Qed.



(** X12: [stop] runs the stop callbacks with [forEach], without a
    handler for exceptions: when a callback throws, [stop] throws the
    same exception and the callbacks after it are not run. *)
Theorem stop_aborts_at_throwing_callback (stops1 : list (StopHandler U)) s stops2
    w w1 e u' :
  forEach stops1 liftClient w = (Ok tt, w1) ->
  s (client w1) = (Thrown e, u') ->
  stop (Profiler (Some (stops1 ++ s :: stops2))) w = (Thrown e, set_client u' w1).
Proof.
  intros H1 H2. cbn [stop]. rewrite forEach_app.
  rewrite (bind_step _ _ _ _ _ H1). cbn [forEach].
  unfold bind, liftClient. by rewrite H2.
Qed.

End ProfileFailures.

Section FlagBlind.
Context {U : Type}.
Implicit Types (w : World U).
































End FlagBlind.

Section InstrumentMethods.
Context {U : Type}.
Implicit Types (w : World U) (wr : Wrapper U).

(** [instrument] in a development build, on an intact registry. *)
Lemma instrument_dev n (f : Fn U) w :
  intact (aggregateHandlersByName w) ->
  exists wr w1,
    instrument true n f w = (Ok (Instrumented (length (wrappers w))), w1) /\
    wrappers w1 = wrappers w ++ [wr] /\
    (n <> "hasOwnProperty" -> intact (aggregateHandlersByName w1)) /\
    name wr = n /\ originalFunction wr = f /\ handlers wr = [] /\
    contexts wr = [] /\ displayName wr = "(instrumented " +:+ n +:+ ")".
Proof.
  unfold intact. intros Hint. rewrite instrument_cases, aggregateArray_cases, Hint.
  destruct (own (aggregateHandlersByName w) !! n) as [r |] eqn:E.
  - eexists _, _. split; [reflexivity |]. cbn. by repeat split.
  - eexists _, _. split; [reflexivity |]. cbn. repeat split; try done.
    intros Hn. rewrite own_setProperty by done. case_decide; [done |].
    by rewrite lookup_insert_ne.
Qed.

Lemma Forall2_impl_elem {A B} (P Q : A -> B -> Prop) l k :
  Forall2 P l k -> (forall x y, x ∈ l -> P x y -> Q x y) -> Forall2 Q l k.
Proof.
  induction 1 as [| x y l k Hxy _ IH]; intros HPQ; constructor.
  - apply HPQ; [apply list_elem_of_here | done].
  - apply IH. intros x' y' Hx'. apply HPQ. by apply list_elem_of_further.
Qed.

Lemma instrumentMethods_wraps (o : gmap string (Callable U)) ns w :
  NoDup ns.*1 ->
  intact (aggregateHandlersByName w) ->
  "hasOwnProperty" ∉ ns.*2 ->
  exists o' news w',
    instrumentMethods true o ns w = (Ok o', w') /\
    wrappers w' = wrappers w ++ news /\
    Forall2 (wraps o) ns news /\
    (forall i kn, ns !! i = Some kn ->
       o' !! kn.1 = Some (Instrumented (length (wrappers w) + i))) /\
    (forall key, key ∉ ns.*1 -> o' !! key = o !! key).
Proof.
  revert o w. induction ns as [| [key n] ns IH]; intros o w Hnd Hint Hnames.
  { exists o, [], w. cbn. rewrite app_nil_r. by repeat split. }
  cbn in Hnd, Hnames. apply NoDup_cons in Hnd as [Hkey Hnd].
  apply not_elem_of_cons in Hnames as [Hn Hnames].
  cbn [instrumentMethods].
  destruct (instrument_dev n (asFunction (o !! key)) w Hint)
    as (wr & w1 & Hi & Hw1 & Hint1 & Hname & Hf & Hh & Hc & Hdn).
  rewrite (bind_step _ _ _ _ _ Hi).
  destruct (IH (<[key := Instrumented (length (wrappers w))]> o) w1 Hnd
              (Hint1 (not_eq_sym Hn)) Hnames)
    as (o' & news & w' & Hrun & Hw' & Hall & Hin & Hout).
  exists o', (wr :: news), w'. split; [exact Hrun |].
  split; [by rewrite Hw', Hw1, <- app_assoc |].
  split; [| split].
  - constructor; [done |].
    eapply Forall2_impl_elem; [exact Hall |].
    intros [k' n'] wr' Hel (H1 & H2 & H3). split; [done |].
    split; [| done]. rewrite H2. cbn. rewrite lookup_insert_ne; [done |].
    intros <-. apply Hkey. apply list_elem_of_fmap. by exists (key, n').
  - intros [| i] kn Hkn.
    + cbn in Hkn. inversion Hkn; subst kn. cbn.
      rewrite Hout by done. rewrite lookup_insert_eq. by rewrite Nat.add_0_r.
    + cbn in Hkn. rewrite (Hin i kn Hkn). rewrite Hw1, length_app. cbn.
      do 2 f_equal. lia.
  - intros k' Hk'. cbn in Hk'. apply not_elem_of_cons in Hk' as [Hne Hk'].
    rewrite Hout by done. by rewrite lookup_insert_ne.
Qed.

(** X14: [instrumentMethods] in a development build, whatever the
    order [ns] in which the entries of [names] are visited.  When
    ["hasOwnProperty"] is a key of the aggregate registry the first
    entry fails with a TypeError and nothing is done.  When it is
    none, no name of an entry is ["hasOwnProperty"] and the keys are
    distinct, [instrumentMethods] returns: it has made one wrapper per
    entry, in the order of the visit, each with the name of its entry,
    the method found under its key as original function (a missing
    method included) and no handler; it has stored each wrapper under
    its key and left the other keys of the object and the wrappers
    made before as they are. *)
Theorem instrumentMethods_wraps_each_key (o : gmap string (Callable U)) ns w :
  (~ intact (aggregateHandlersByName w) -> ns <> [] ->
   instrumentMethods true o ns w = (Thrown typeError, w)) /\
  (NoDup ns.*1 ->
   intact (aggregateHandlersByName w) ->
   "hasOwnProperty" ∉ ns.*2 ->
   exists o' news w',
     instrumentMethods true o ns w = (Ok o', w') /\
     wrappers w' = wrappers w ++ news /\
     Forall2 (wraps o) ns news /\
     (forall i kn, ns !! i = Some kn ->
        o' !! kn.1 = Some (Instrumented (length (wrappers w) + i))) /\
     (forall key, key ∉ ns.*1 -> o' !! key = o !! key)).
Proof.
  split; [| apply instrumentMethods_wraps].
  intros Hint Hne. destruct ns as [| [key n] ns]; [done |].
  cbn [instrumentMethods]. unfold bind.
  by rewrite instrument_cases, aggregateArray_shadowed.
Qed.

(** X15: in a production build [instrumentMethods] changes neither the
    object nor the module; it fails with a TypeError when a listed key
    has no method (the write of [attachHandler] on [undefined]), and
    only then. *)
Theorem instrumentMethods_production_checks_keys
    (o : gmap string (Callable U)) ns w :
  instrumentMethods false o ns w =
  (if forallb (fun kn => bool_decide (is_Some (o !! kn.1))) ns
   then Ok o else Thrown typeError, w).
Proof.
  induction ns as [| [key n] ns IH]; [done |].
  cbn [instrumentMethods forallb fst]. unfold bind.
  destruct (o !! key) as [c |] eqn:E; cbn [callable ret throw].
  - rewrite bool_decide_eq_true_2 by eauto. rewrite (insert_id _ _ _ E).
    exact IH.
  - rewrite bool_decide_eq_false_2; [done |]. by intros [? ?].
Qed.

End InstrumentMethods.

Section Sharing.
Context {U : Type}.
Implicit Types (w : World U) (wr : Wrapper U).


(** The array a wrapper holds after an aggregate handler was attached
    under the name [n]. *)
Lemma attachAggregateHandler_shared w n wid wr (h : Handler U) :
  sound w -> wrappers w !! wid = Some wr ->
  wrappers (snd (attachAggregateHandler true n h w)) = wrappers w /\
  array (snd (attachAggregateHandler true n h w)) (aggregateHandlers wr) =
    (if registers (aggregateHandlersByName w) n && bool_decide (name wr = n)
     then array w (aggregateHandlers wr) ++ [h]
     else array w (aggregateHandlers wr)).
Proof.
  intros Hs Hwr.
  destruct (attachAggregateHandler_frame true n h w) as (_ & _ & Hw & _).
  split; [exact Hw |].
  pose proof (sound_attachAggregateHandler true n h w Hs) as Hs1.
  rewrite <- Hw in Hwr.
  rewrite (sound_aggregateList _ _ _ Hs1 Hwr).
  rewrite Hw in Hwr. rewrite (sound_aggregateList _ _ _ Hs Hwr).
  by rewrite aggregateList_attach.
Qed.



(** X17: an aggregate handler reaches every wrapper of its name, and
    those only, when ["hasOwnProperty"] is no key of the registry and
    the name is not ["__proto__"] (otherwise it reaches none); an
    instance handler is attached to one wrapper only: the other
    wrappers, those instrumented under the same name included, and the
    aggregate handlers of every name are as before. *)
Theorem handler_scopes w n wid wr (h : Handler U) :
  sound w ->
  wrappers w !! wid = Some wr ->
  (forall wid' wr', wrappers w !! wid' = Some wr' ->
     array (snd (attachAggregateHandler true n h w)) (aggregateHandlers wr') =
       (if registers (aggregateHandlersByName w) n && bool_decide (name wr' = n)
        then array w (aggregateHandlers wr') ++ [h]
        else array w (aggregateHandlers wr'))) /\
  (forall wid', wid' <> wid ->
     wrappers (attachHandler (Instrumented wid) h w) !! wid' =
       wrappers w !! wid') /\
  (forall n', aggregateList (attachHandler (Instrumented wid) h w) n' =
              aggregateList w n') /\
  instanceList (attachHandler (Instrumented wid) h w) (Instrumented wid) =
    handlers wr ++ [h].
Proof.
  intros Hs Hwr. split; [| split; [| split]].
  - intros wid' wr' Hwr'.
    by apply (attachAggregateHandler_shared w n wid' wr' h Hs Hwr').
  - intros wid' Hne. cbn. rewrite Hwr. cbn.
    by rewrite list_lookup_insert_ne.
  - intros n'. cbn. by rewrite Hwr.
  - cbn. rewrite Hwr. cbn.
    rewrite list_lookup_insert_eq by (by eapply lookup_lt_Some). done.
Qed.

End Sharing.

(** * The further properties on the example worlds *)

Lemma exOrdered_sound : sound exOrdered.
Proof.
  change exOrdered with (steps true opsOrdered (initial true 0)).
  apply sound_steps, sound_initial.
Qed.



Lemma passThrough_fresh hs :
  Forall (fun h' => hid h' <> 9) hs -> ~ attached (passThrough 9) hs.
Proof.
  intros H. unfold attached. apply Forall_Exists_neg.
  eapply Forall_impl; [exact H |]. by intros h'.
Qed.

(** X2 on [exOrdered]. *)
Lemma X2_witness :
  detachHandler (Instrumented 0) (passThrough 9)
    (attachHandler (Instrumented 0) (passThrough 9) exOrdered) = exOrdered.
Proof.
  apply (attachHandler_detachHandler (Instrumented 0) (passThrough 9) exOrdered).
  apply passThrough_fresh. vm_compute. repeat constructor; discriminate.
Defined.

(** X4 on the two aggregate handlers of [exOrdered]. *)
Lemma X4_witness :
  aggregateList (snd (attachAggregateHandler true "f" (passThrough 9) exOrdered)) "f" =
    [passThrough 1; passThrough 2; passThrough 9] /\
  aggregateList (snd (detachAggregateHandler true "f" (passThrough 1) exOrdered)) "f" =
    [passThrough 2].
Proof.
  split.
  - apply (proj1 (aggregate_lists true exOrdered "f" "f" (passThrough 9)
                    exOrdered_sound)).
  - apply (proj2 (aggregate_lists true exOrdered "f" "f" (passThrough 1)
                    exOrdered_sound)).
Defined.

(** X5 on [exOrdered]. *)
Lemma X5_witness :
  aggregateList
    (snd (detachAggregateHandler true "f" (passThrough 9)
            (snd (attachAggregateHandler true "f" (passThrough 9) exOrdered)))) "f" =
  [passThrough 1; passThrough 2].
Proof.
  apply (attachAggregate_detachAggregate true exOrdered "f" "f" (passThrough 9)
           exOrdered_sound).
  - discriminate.
  - apply passThrough_fresh. vm_compute. repeat constructor; discriminate.
Defined.




(** X12 on three stop callbacks, the second one throwing. *)
Lemma X12_witness :
  stop (Profiler (Some ([fun u => (Ok tt, u ++ [11])]
                          ++ (fun u => (Thrown (VStr "boom"), u ++ [12]))
                          :: [fun u => (Ok tt, u ++ [13])])))
       (initial true []) =
  (Thrown (VStr "boom"), set_client [11; 12] (set_client [11] (initial true []))).
Proof.
  apply (stop_aborts_at_throwing_callback
           [fun u => (Ok tt, u ++ [11])]
           (fun u => (Thrown (VStr "boom"), u ++ [12]))
           [fun u => (Ok tt, u ++ [13])]
           (initial true []) (set_client [11] (initial true []))
           (VStr "boom") [11; 12]).
  - reflexivity.
  - reflexivity.
Defined.

(** X14 on an object that has one of the two methods named. *)
Lemma X14_witness :
  exists o' news w',
    instrumentMethods true exObject exNames (initial true 0) = (Ok o', w') /\
    wrappers w' = wrappers (initial true 0) ++ news /\
    Forall2 (wraps exObject) exNames news /\
    (forall i kn, exNames !! i = Some kn ->
       o' !! kn.1 = Some (Instrumented (length (wrappers (initial true 0)) + i))) /\
    (forall key, key ∉ exNames.*1 -> o' !! key = exObject !! key).
Proof.
  apply (proj2 (instrumentMethods_wraps_each_key exObject exNames (initial true 0))).
  - apply NoDup_cons. split; [| apply NoDup_singleton].
    intros H. apply list_elem_of_singleton in H. discriminate.
  - reflexivity.
  - intros H. apply elem_of_cons in H as [H | H]; [discriminate |].
    apply list_elem_of_singleton in H. discriminate.
Defined.


(** X17 on [exOrdered]. *)
Lemma X17_witness :
  array (snd (attachAggregateHandler true "f" (passThrough 9) exOrdered)) 0 =
    [passThrough 1; passThrough 2; passThrough 9] /\
  instanceList (attachHandler (Instrumented 0) (passThrough 9) exOrdered)
    (Instrumented 0) = [passThrough 3; passThrough 4; passThrough 9].
Proof.
  destruct (handler_scopes exOrdered "f" 0 wrOrdered (passThrough 9)
              exOrdered_sound eq_refl) as (Ha & _ & _ & Hi).
  split; [exact (Ha 0 wrOrdered eq_refl) | exact Hi].
Defined.
